(** * QSurfaceTexture: an Android SurfaceTexture drawn as a Qt Quick item

    Shallow embedding of [src/android_player/native/QSurfaceTexture.cpp]:
    the material [State] and its [compare], the scene-graph node
    [SurfaceTextureNode] with its [preprocess] hook, the item
    [QSurfaceTexture] with [updatePaintNode] and its destructor, and the
    JNI entry point [frameAvailable].

    The code talks to three outside parties: the GL context, the Java
    [SurfaceTexture] object reached through JNI, and the Qt scene graph.
    Each is a small piece of explicit state in [World]; every call that
    crosses one of these borders is also written to a trace, so that
    "how many times" and "in which order" are properties of a list. *)

From Stdlib Require Import String ZArith List Bool Lia.
From Stdlib Require Import Floats.SpecFloat.
Import ListNotations.
Local Open Scope Z_scope.

(* ================================================================== *)
(** ** Machine data *)

(** [GLuint]: an unsigned 32-bit texture name; only compared and passed. *)
Definition GLuint := Z.

(** [jlong]: the address of the item as handed to Java. *)
Definition jlong := Z.

(** [jfloat] / [float]: an IEEE-754 binary32 value, kept as its 32-bit
    pattern (sign, 8 exponent bits, 23 fraction bits).  Copies move the
    pattern; [==] is the IEEE comparison below. *)
Definition jfloat := Z.

Module F32.

Definition is_word (b : jfloat) : Prop := 0 <= b < 2 ^ 32.

Definition exponent (b : jfloat) : Z := Z.land (Z.shiftr b 23) 255.
Definition fraction (b : jfloat) : Z := Z.land b 8388607.

(** all exponent bits set and a non-zero fraction *)
Definition is_nan (b : jfloat) : bool :=
  (exponent b =? 255) && negb (fraction b =? 0).

(** everything but the sign bit is clear: +0.0 or -0.0 *)
Definition is_zero (b : jfloat) : bool := Z.land b 2147483647 =? 0.

(** C++ [a == b] on two floats: false as soon as one side is a NaN,
    true for the two zeros, otherwise equality of the patterns
    ([F32_eq_is_IEEE] below checks this against [SFeqb]). *)
Definition eq (a b : jfloat) : bool :=
  negb (is_nan a) && negb (is_nan b) &&
  ((a =? b) || (is_zero a && is_zero b)).

(** the value a pattern stands for, in the Standard Library's model of
    IEEE-754 (which keeps no NaN payload): sign bit 31, subnormals
    [m * 2^-149], normals [(2^23 + m) * 2^(e - 150)] *)
Definition decode (b : jfloat) : spec_float :=
  let s := Z.testbit b 31 in
  if exponent b =? 0 then
    match fraction b with
    | Zpos p => S754_finite s p (-149)
    | _ => S754_zero s
    end
  else if exponent b =? 255 then
    if fraction b =? 0 then S754_infinity s else S754_nan
  else
    match fraction b + 8388608 with
    | Zpos p => S754_finite s p (exponent b - 150)
    | _ => S754_nan
    end.

Definition zero : jfloat := 0.                 (* 0x00000000 *)
Definition neg_zero : jfloat := 2147483648.     (* 0x80000000 *)
Definition one : jfloat := 1065353216.          (* 0x3F800000 *)
Definition quiet_nan : jfloat := 2143289344.    (* 0x7FC00000 *)

(** a value on which [==] and pattern equality agree *)
Definition ordinary (b : jfloat) : Prop :=
  is_word b /\ is_nan b = false /\ b <> neg_zero.

End F32.

(* ================================================================== *)
(** ** QMatrix4x4 and the material state *)

(** [QMatrix4x4] is its sixteen floats [m[4][4]], in memory order. *)
Definition QMatrix4x4 := list jfloat.

(** the default-constructed matrix: identity *)
Definition QMatrix4x4_identity : QMatrix4x4 :=
  [F32.one; F32.zero; F32.zero; F32.zero;
   F32.zero; F32.one; F32.zero; F32.zero;
   F32.zero; F32.zero; F32.one; F32.zero;
   F32.zero; F32.zero; F32.zero; F32.one].

(** [QMatrix4x4::operator==]: the sixteen entries compared with [==],
    [m[0][0] == other.m[0][0] && ... && m[3][3] == other.m[3][3]]. *)
Definition QMatrix4x4_eq (a b : QMatrix4x4) : bool :=
  forallb (fun i => F32.eq (nth i a F32.zero) (nth i b F32.zero))
          (seq 0 16).

(** [struct State] *)
Record State := mkState {
  uSTMatrix : QMatrix4x4;   (* the texture transform matrix *)
  textureId : GLuint
}.

(** [State::compare] *)
Definition compare (this other : State) : Z :=
  if QMatrix4x4_eq (uSTMatrix this) (uSTMatrix other)
     && (textureId this =? textureId other)
  then 0 else -1.

(** two states hold the same bits in both fields *)
Definition bitwise_equal (a b : State) : Prop :=
  uSTMatrix a = uSTMatrix b /\ textureId a = textureId b.

(** a state as it sits in memory: sixteen 32-bit floats *)
Definition State_wf (s : State) : Prop :=
  length (uSTMatrix s) = 16%nat /\ Forall F32.is_word (uSTMatrix s).

(** no entry is a NaN or the negative zero *)
Definition State_ordinary (s : State) : Prop :=
  length (uSTMatrix s) = 16%nat /\ Forall F32.ordinary (uSTMatrix s).

(* ================================================================== *)
(** ** Geometry: QRectF and the textured quad *)

(** Coordinates.  [qreal] is a C++ [double] and the vertex data are C++
    [float]s: IEEE-754 binary64 and binary32 values.  Both are kept as
    the Standard Library's [spec_float] (sign, mantissa, exponent, the
    two zeros, the infinities, NaN), and the arithmetic is the Standard
    Library's executable specification of IEEE-754 with rounding to
    nearest, ties to even. *)
Definition qreal := spec_float.
Definition float32 := spec_float.

(** [double]: 53 bits of precision, exponents up to 1024 *)
Definition qreal_prec : Z := 53.
Definition qreal_emax : Z := 1024.

(** [float]: 24 bits of precision, exponents up to 128 *)
Definition float_prec : Z := 24.
Definition float_emax : Z := 128.

(** [a + b] and [a - b] on two [qreal]s *)
Definition qreal_add (a b : qreal) : qreal := SFadd qreal_prec qreal_emax a b.
Definition qreal_sub (a b : qreal) : qreal := SFsub qreal_prec qreal_emax a b.

Declare Scope qreal_scope.
Delimit Scope qreal_scope with qreal.
Bind Scope qreal_scope with qreal.
Infix "+" := qreal_add : qreal_scope.
Infix "-" := qreal_sub : qreal_scope.

(** an integer literal or [int] value used as a [qreal] (rounded when it
    has more than 53 significant bits) *)
Definition qreal_of_Z (n : Z) : qreal :=
  binary_normalize qreal_prec qreal_emax n 0 false.


(** the same for a [float] *)
Definition float_of_Z (n : Z) : float32 :=
  binary_normalize float_prec float_emax n 0 false.

(** the conversion a [float] variable or field applies to a [qreal]:
    the value is rounded to 24 significant bits, overflows to an
    infinity, underflows to a subnormal or a zero *)
Definition to_float (x : qreal) : float32 :=
  match x with
  | S754_finite s m e =>
      binary_normalize float_prec float_emax (cond_Zopp s (Zpos m)) e s
  | _ => x
  end.

(** a [float] passed where a [qreal] is expected: the same value, written
    with the mantissa and exponent of a [double] *)
Definition of_float (x : float32) : qreal :=
  match x with
  | S754_finite s m e =>
      binary_normalize qreal_prec qreal_emax (cond_Zopp s (Zpos m)) e s
  | _ => x
  end.

(** neither an infinity nor a NaN *)
Definition is_finite (x : spec_float) : bool :=
  match x with
  | S754_zero _ | S754_finite _ _ _ => true
  | _ => false
  end.

(** [QRectF]: stored as position and size, as in Qt *)
Record QRectF := mkRectF {
  xp : qreal;
  yp : qreal;
  w : qreal;
  h : qreal
}.

(** [QRectF(x, y, w, h)] on integer arguments *)
Definition QRectF_of (x y w h : Z) : QRectF :=
  mkRectF (qreal_of_Z x) (qreal_of_Z y) (qreal_of_Z w) (qreal_of_Z h).

Definition left (r : QRectF) : qreal := xp r.
Definition top (r : QRectF) : qreal := yp r.
Definition right (r : QRectF) : qreal := (xp r + w r)%qreal.
Definition bottom (r : QRectF) : qreal := (yp r + h r)%qreal.

(** [QRectF::setTop]: [diff = pos - yp; yp += diff; h -= diff] *)
Definition setTop (pos : qreal) (r : QRectF) : QRectF :=
  let diff := (pos - yp r)%qreal in
  mkRectF (xp r) (yp r + diff)%qreal (w r) (h r - diff)%qreal.

(** [QRectF::setBottom]: [h = pos - yp] *)
Definition setBottom (pos : qreal) (r : QRectF) : QRectF :=
  mkRectF (xp r) (yp r) (w r) (pos - yp r)%qreal.

(** [QSGGeometry::TexturedPoint2D] *)
Record TexturedPoint2D := mkPoint {
  x : float32;
  y : float32;
  tx : float32;
  ty : float32
}.

(** [QSGGeometry] with the [TexturedPoint2D] attribute set: its vertices *)
Definition QSGGeometry := list TexturedPoint2D.

(** [QSGGeometry(defaultAttributes_TexturedPoint2D(), 4)]: room for four
    vertices; nothing reads them before the first write. *)
Definition QSGGeometry_new (vertexCount : nat) : QSGGeometry :=
  repeat (mkPoint (float_of_Z 0) (float_of_Z 0) (float_of_Z 0) (float_of_Z 0))
         vertexCount.

(** [QSGGeometry::updateTexturedRectGeometry]: the four corners of [rect],
    each with the matching corner of [textureRect], in the order
    top-left, bottom-left, top-right, bottom-right. *)
Definition updateTexturedRectGeometry (g : QSGGeometry)
    (rect textureRect : QRectF) : QSGGeometry :=
  [ mkPoint (to_float (left rect)) (to_float (top rect))
            (to_float (left textureRect)) (to_float (top textureRect));
    mkPoint (to_float (left rect)) (to_float (bottom rect))
            (to_float (left textureRect)) (to_float (bottom textureRect));
    mkPoint (to_float (right rect)) (to_float (top rect))
            (to_float (right textureRect)) (to_float (top textureRect));
    mkPoint (to_float (right rect)) (to_float (bottom rect))
            (to_float (right textureRect)) (to_float (bottom textureRect)) ]
  ++ skipn 4 g.

(** the [// flip vertical] block of [updatePaintNode]:
    [float &&tmp = rect.top(); rect.setTop(rect.bottom());
     rect.setBottom(tmp)]: the old top waits in a [float] and comes back
    as a [qreal] *)
Definition flip_vertical (rect : QRectF) : QRectF :=
  let tmp := to_float (top rect) in
  let rect := setTop (bottom rect) rect in
  setBottom (of_float tmp) rect.

(** [QRectF(0, 0, 1, 1)] *)
Definition unit_rect : QRectF := QRectF_of 0 0 1 1.


(* ================================================================== *)
(** ** The outside world: GL, Java, the scene graph *)

Inductive GLenum :=
| GL_TEXTURE_2D
| GL_TEXTURE_EXTERNAL_OES
| GL_TEXTURE_MIN_FILTER
| GL_TEXTURE_MAG_FILTER
| GL_NEAREST.

(** a JNI reference to a Java object: [None] is [NULL], [Some i] is the
    i-th object of the Java heap.  [QAndroidJniObject] wraps one. *)
Definition jobject := option nat.
Definition QAndroidJniObject := jobject.

(** the two methods of [android/graphics/SurfaceTexture] the node looks up *)
Inductive jmethodID :=
| SurfaceTexture_updateTexImage       (* "updateTexImage", "()V" *)
| SurfaceTexture_getTransformMatrix.  (* "getTransformMatrix", "([F)V" *)

(** [Qt::ConnectionType], as far as it is used *)
Inductive ConnectionType :=
| QueuedConnection.

(** [QSGNode::Flag] and [QSGNode::DirtyStateBit], with Qt's values *)
Definition UsePreprocess : Z := 0x0002.
Definition OwnsMaterial : Z := 0x00020000.
Definition DirtyGeometry : Z := 0x1000.
Definition DirtyMaterial : Z := 0x2000.
(** [QSGMaterial::Blending] and [QQuickItem::ItemHasContents] *)
Definition Blending : Z := 0x0001.
Definition ItemHasContents : Z := 0x08.

(** Every call that leaves the translation unit. *)
Inductive Call :=
| GlGenTextures (name : GLuint)                 (* glGenTextures(1, &name) *)
| GlBindTexture (target : GLenum) (name : GLuint)
| GlTexParameterf (target pname param : GLenum)
| GlDisable (cap : GLenum)
| GlEnable (cap : GLenum)
| GlDeleteTextures (name : GLuint)              (* glDeleteTextures(1, &name) *)
| NewSurfaceTexture (o : jobject) (texName : GLuint)
| NewSurfaceTextureListener (ptr : jlong)
| SetOnFrameAvailableListener (o : jobject) (ptr : jlong)
| UpdateTexImage (o : jobject)
| GetTransformMatrix (o : jobject)
| NewFloatArray (len : nat)
| NewGlobalRef
| DeleteLocalRef
| DeleteGlobalRef
| GetMethodID (cls name sig : string)
| UpdateGeometry (rect textureRect : QRectF)    (* updateTexturedRectGeometry *)
| MarkDirty (bits : Z)                          (* QSGNode::markDirty *)
| EmitSurfaceTextureChanged (ptr : jlong)
| InvokeMethod (ptr : jlong) (member : string) (type : ConnectionType).

(** The Java [SurfaceTexture] object, as far as the two methods show it:
    the frames the producer has queued (each with its transform) and the
    transform of the frame latched by the last [updateTexImage]. *)
Record SurfaceTexture := mkSurfaceTexture {
  st_texName : GLuint;
  st_listener : option jlong;
  st_queued : list QMatrix4x4;
  st_transform : QMatrix4x4
}.

Record World := mkWorld {
  gl_textures : list GLuint;          (* texture names in use *)
  java_heap : list SurfaceTexture     (* Java objects, by reference *)
}.

(** State and trace: a computation returns its value, the world it
    leaves, and the calls it made, oldest first. *)
Definition M (A : Type) : Type := World -> A * World * list Call.

Definition ret {A : Type} (a : A) : M A := fun wd => (a, wd, []).

Definition bind {A B : Type} (c : M A) (k : A -> M B) : M B :=
  fun wd =>
    let r1 := c wd in
    let r2 := k (fst (fst r1)) (snd (fst r1)) in
    (fst (fst r2), snd (fst r2), snd r1 ++ snd r2).

Definition value {A : Type} (r : A * World * list Call) : A := fst (fst r).
Definition world {A : Type} (r : A * World * list Call) : World := snd (fst r).
Definition trace {A : Type} (r : A * World * list Call) : list Call := snd r.

Declare Scope m_scope.
Delimit Scope m_scope with M.
Notation "x <- c ;; k" := (bind c (fun x => k))
  (at level 61, c at next level, right associativity) : m_scope.
Notation "c ;; k" := (bind c (fun _ => k))
  (at level 61, right associativity) : m_scope.
Local Open Scope m_scope.

Definition call (c : Call) : M unit := fun wd => (tt, wd, [c]).
Definition get_world : M World := fun wd => (wd, wd, []).
Definition put_world (wd : World) : M unit := fun _ => (tt, wd, []).

(** *** GL *)

(** a name no texture uses, and never 0 *)
Definition fresh_name (used : list GLuint) : GLuint :=
  1 + fold_right Z.max 0 used.

Definition glGenTextures : M GLuint :=
  wd <- get_world ;;
  let name := fresh_name (gl_textures wd) in
  put_world (mkWorld (name :: gl_textures wd) (java_heap wd)) ;;
  call (GlGenTextures name) ;;
  ret name.

Definition glBindTexture (target : GLenum) (name : GLuint) : M unit :=
  call (GlBindTexture target name).

Definition glTexParameterf (target pname param : GLenum) : M unit :=
  call (GlTexParameterf target pname param).

Definition glDisable (cap : GLenum) : M unit := call (GlDisable cap).
Definition glEnable (cap : GLenum) : M unit := call (GlEnable cap).

Definition glDeleteTextures (name : GLuint) : M unit :=
  wd <- get_world ;;
  put_world (mkWorld (filter (fun n => negb (n =? name)) (gl_textures wd))
                     (java_heap wd)) ;;
  call (GlDeleteTextures name).

(** *** Java heap *)

Definition heap_load (hp : list SurfaceTexture) (o : jobject)
  : option SurfaceTexture :=
  match o with
  | Some i => nth_error hp i
  | None => None
  end.

Fixpoint heap_store_at (hp : list SurfaceTexture) (i : nat)
    (s : SurfaceTexture) : list SurfaceTexture :=
  match hp, i with
  | [], _ => []
  | _ :: rest, O => s :: rest
  | s0 :: rest, S j => s0 :: heap_store_at rest j s
  end.

Definition heap_store (hp : list SurfaceTexture) (o : jobject)
    (s : SurfaceTexture) : list SurfaceTexture :=
  match o with
  | Some i => heap_store_at hp i s
  | None => hp
  end.

(** apply [f] to the object behind [o]; nothing happens on a reference
    that names no object *)
Definition on_object (o : jobject) (f : SurfaceTexture -> SurfaceTexture)
  : M unit :=
  wd <- get_world ;;
  match heap_load (java_heap wd) o with
  | Some s =>
      put_world (mkWorld (gl_textures wd) (heap_store (java_heap wd) o (f s)))
  | None => ret tt
  end.

(** [new SurfaceTexture(texName)]: nothing queued, identity transform *)
Definition SurfaceTexture_new (texName : GLuint) : M QAndroidJniObject :=
  wd <- get_world ;;
  let o := Some (length (java_heap wd)) in
  put_world (mkWorld (gl_textures wd)
               (java_heap wd ++
                [mkSurfaceTexture texName None [] QMatrix4x4_identity])) ;;
  call (NewSurfaceTexture o texName) ;;
  ret o.

(** [new SurfaceTextureListener(ptr)]: the listener is known by the
    address it carries *)
Definition SurfaceTextureListener_new (ptr : jlong) : M jlong :=
  call (NewSurfaceTextureListener ptr) ;;
  ret ptr.

(** [SurfaceTexture.setOnFrameAvailableListener] *)
Definition setOnFrameAvailableListener (o : jobject) (listener : jlong)
  : M unit :=
  on_object o (fun s => mkSurfaceTexture (st_texName s) (Some listener)
                          (st_queued s) (st_transform s)) ;;
  call (SetOnFrameAvailableListener o listener).

(** [SurfaceTexture.updateTexImage]: latch the most recent queued frame,
    dropping the older ones; with nothing queued the latched frame stays. *)
Definition latch (s : SurfaceTexture) : SurfaceTexture :=
  match st_queued s with
  | [] => s
  | f :: fs =>
      mkSurfaceTexture (st_texName s) (st_listener s) []
                       (last fs f)
  end.

Definition updateTexImage (o : jobject) : M unit :=
  on_object o latch ;;
  call (UpdateTexImage o).

(** [SurfaceTexture.getTransformMatrix(mtx)]: store the transform of the
    latched frame into [mtx]; returns the array as it is afterwards. *)
Definition getTransformMatrix (o : jobject) (mtx : list jfloat)
  : M (list jfloat) :=
  wd <- get_world ;;
  call (GetTransformMatrix o) ;;
  match heap_load (java_heap wd) o with
  | Some s => ret (st_transform s)
  | None => ret mtx
  end.

(** [JNIEnv::CallVoidMethod(obj, methodID)], no argument *)
Definition CallVoidMethod (o : jobject) (mid : jmethodID) : M unit :=
  match mid with
  | SurfaceTexture_updateTexImage => updateTexImage o
  | SurfaceTexture_getTransformMatrix => ret tt
  end.

(** [JNIEnv::CallVoidMethod(obj, methodID, array)]; the float array is
    handed back as the call leaves it. *)
Definition CallVoidMethodA (o : jobject) (mid : jmethodID)
    (array : list jfloat) : M (list jfloat) :=
  match mid with
  | SurfaceTexture_updateTexImage => updateTexImage o ;; ret array
  | SurfaceTexture_getTransformMatrix => getTransformMatrix o array
  end.

(** [JNIEnv::GetFloatArrayRegion(array, start, len, buf)]: copy
    [array[start .. start+len)] to [buf[0 .. len)]; out of range, an
    exception is pending and [buf] is untouched. *)
Definition GetFloatArrayRegion (array : list jfloat) (start len : nat)
    (buf : list jfloat) : list jfloat :=
  if (start + len <=? length array)%nat
  then firstn len (skipn start array) ++ skipn len buf
  else buf.

(* ================================================================== *)
(** ** SurfaceTextureNode *)

(** [QSGSimpleMaterial<State>]: the state and the material flags *)
Record QSGSimpleMaterial := mkMaterial {
  state : State;
  material_flags : Z
}.

(** [SurfaceTextureShader::createMaterial()]: a default-constructed
    [State], identity matrix and [textureId = 0] *)
Definition createMaterial : QSGSimpleMaterial :=
  mkMaterial (mkState QMatrix4x4_identity 0) 0.

(** [class SurfaceTextureNode : public QSGGeometryNode]; [material] is
    the base class's pointer, [None] when it is null. *)
Record SurfaceTextureNode := mkNode {
  node_flags : Z;
  material : option QSGSimpleMaterial;
  m_surfaceTexture : QAndroidJniObject;
  m_geometry : QSGGeometry;
  m_uSTMatrixArray : list jfloat;
  m_textureId : GLuint;
  updateTexMethod : jmethodID;
  getTransformMatrixMethod : jmethodID;
  obj : jobject
}.

Definition SurfaceTexture_class : string := "android/graphics/SurfaceTexture".

(** [SurfaceTextureNode::SurfaceTextureNode(surfaceTexture, textureId)] *)
Definition SurfaceTextureNode_ctor (surfaceTexture : QAndroidJniObject)
    (textureId : GLuint) : M SurfaceTextureNode :=
  (* setFlag(UsePreprocess); setGeometry(&m_geometry) *)
  let nflags := Z.lor 0 UsePreprocess in
  let geom := QSGGeometry_new 4 in
  (* create and set the material *)
  let mat := createMaterial in
  let mat := mkMaterial (mkState (uSTMatrix (state mat)) textureId)
                        (material_flags mat) in
  let mat := mkMaterial (state mat) (Z.lor (material_flags mat) Blending) in
  let nflags := Z.lor nflags OwnsMaterial in
  (* the array for the transform matrix, created once *)
  call (NewFloatArray 16) ;;
  call NewGlobalRef ;;
  call DeleteLocalRef ;;
  let array := repeat F32.zero 16 in
  call (GetMethodID SurfaceTexture_class "updateTexImage" "()V") ;;
  call (GetMethodID SurfaceTexture_class "getTransformMatrix" "([F)V") ;;
  ret (mkNode nflags (Some mat) surfaceTexture geom array textureId
              SurfaceTexture_updateTexImage
              SurfaceTexture_getTransformMatrix
              surfaceTexture).

(** [SurfaceTextureNode::~SurfaceTextureNode()] *)
Definition SurfaceTextureNode_dtor (this : SurfaceTextureNode) : M unit :=
  call DeleteGlobalRef.

(** the node with the matrix of its material state replaced *)
Definition with_transform (this : SurfaceTextureNode)
    (mat : QSGSimpleMaterial) (array data : list jfloat)
  : SurfaceTextureNode :=
  mkNode (node_flags this)
         (Some (mkMaterial (mkState data (textureId (state mat)))
                           (material_flags mat)))
         (m_surfaceTexture this) (m_geometry this) array
         (m_textureId this) (updateTexMethod this)
         (getTransformMatrixMethod this) (obj this).

(** [SurfaceTextureNode::preprocess()] *)
Definition preprocess (this : SurfaceTextureNode) : M SurfaceTextureNode :=
  match material this with
  | None => ret this
  | Some mat =>
      (* update the texture content *)
      CallVoidMethod (obj this) (updateTexMethod this) ;;
      (* get the new texture transform matrix *)
      array <- CallVoidMethodA (obj this) (getTransformMatrixMethod this)
                               (m_uSTMatrixArray this) ;;
      ret (with_transform this mat array
             (GetFloatArrayRegion array 0 16 (uSTMatrix (state mat))))
  end.

(* ================================================================== *)
(** ** QSurfaceTexture, the item *)

(** [class QSurfaceTexture : public QQuickItem].  [this_ptr] is the
    address of the object, [boundingRect] what [boundingRect()] returns. *)
Record QSurfaceTexture := mkItem {
  this_ptr : jlong;
  item_flags : Z;
  boundingRect : QRectF;
  mTextureId : GLuint;
  mSurfaceTexture : QAndroidJniObject
}.

(** [QSurfaceTexture::QSurfaceTexture(parent)].  The constructor leaves
    [mTextureId] to its in-class initialiser, which is declared in
    [QSurfaceTexture.h]; it is the parameter [mTextureId0] here.  The
    [QAndroidJniObject] member starts out invalid. *)
Definition QSurfaceTexture_ctor (ptr : jlong) (mTextureId0 : GLuint)
  : QSurfaceTexture :=
  mkItem ptr ItemHasContents (QRectF_of 0 0 0 0) mTextureId0 None.

(** [QSurfaceTexture::~QSurfaceTexture()] *)
Definition QSurfaceTexture_dtor (this : QSurfaceTexture) : M unit :=
  if negb (mTextureId this =? 0) then
    glBindTexture GL_TEXTURE_EXTERNAL_OES 0 ;;
    glDeleteTextures (mTextureId this)
  else ret tt.

(** [QSurfaceTexture::surfaceTexture()] *)
Definition surfaceTexture (this : QSurfaceTexture) : QAndroidJniObject :=
  mSurfaceTexture this.

(** the [if (!node)] block of [updatePaintNode] *)
Definition create_node (this : QSurfaceTexture)
  : M (QSurfaceTexture * SurfaceTextureNode) :=
  (* Create texture *)
  id <- glGenTextures ;;
  glBindTexture GL_TEXTURE_EXTERNAL_OES id ;;
  glTexParameterf GL_TEXTURE_EXTERNAL_OES GL_TEXTURE_MIN_FILTER GL_NEAREST ;;
  glTexParameterf GL_TEXTURE_EXTERNAL_OES GL_TEXTURE_MAG_FILTER GL_NEAREST ;;
  glDisable GL_TEXTURE_2D ;;
  glEnable GL_TEXTURE_EXTERNAL_OES ;;
  (* Create surface texture Java object *)
  st <- SurfaceTexture_new id ;;
  listener <- SurfaceTextureListener_new (this_ptr this) ;;
  setOnFrameAvailableListener st listener ;;
  (* Create our SurfaceTextureNode *)
  node <- SurfaceTextureNode_ctor st id ;;
  call (EmitSurfaceTextureChanged (this_ptr this)) ;;
  ret (mkItem (this_ptr this) (item_flags this) (boundingRect this) id st,
       node).

(** the node with its geometry replaced *)
Definition with_geometry (node : SurfaceTextureNode) (g : QSGGeometry)
  : SurfaceTextureNode :=
  mkNode (node_flags node) (material node) (m_surfaceTexture node) g
         (m_uSTMatrixArray node) (m_textureId node) (updateTexMethod node)
         (getTransformMatrixMethod node) (obj node).

(** [QSurfaceTexture::updatePaintNode(n, data)]; [n] is the node the
    scene graph holds for the item, [None] when it holds none. *)
Definition updatePaintNode (this : QSurfaceTexture)
    (n : option SurfaceTextureNode)
  : M (QSurfaceTexture * SurfaceTextureNode) :=
  r <- match n with
       | Some node => ret (this, node)
       | None => create_node this
       end ;;
  let this := fst r in
  let node := snd r in
  (* flip vertical *)
  let rect := flip_vertical (boundingRect this) in
  call (UpdateGeometry rect unit_rect) ;;
  let node :=
    with_geometry node
      (updateTexturedRectGeometry (m_geometry node) rect unit_rect) in
  call (MarkDirty (Z.lor DirtyGeometry DirtyMaterial)) ;;
  ret (this, node).

(** [Java_com_vadim_android_SurfaceTextureListener_frameAvailable] *)
Definition Java_com_vadim_android_SurfaceTextureListener_frameAvailable
    (ptr : jlong) : M unit :=
  call (InvokeMethod ptr "update" QueuedConnection).

(* ================================================================== *)
(** ** The callers: producer and scene graph *)

(** Modelled from the spec: the Java class [SurfaceTextureListener]
    (under android/src, outside this translation unit) is the "narrow adapter"
    of the design notes: its [onFrameAvailable] only forwards to the
    native [frameAvailable] with the address it was built with.  A frame
    with transform [T] landing on [o] is queued and the listener, if one
    is set, is called. *)
Definition produce_frame (o : jobject) (T : QMatrix4x4) : M unit :=
  wd <- get_world ;;
  match heap_load (java_heap wd) o with
  | Some s =>
      on_object o (fun s => mkSurfaceTexture (st_texName s) (st_listener s)
                              (st_queued s ++ [T]) (st_transform s)) ;;
      match st_listener s with
      | Some ptr =>
          Java_com_vadim_android_SurfaceTextureListener_frameAvailable ptr
      | None => ret tt
      end
  | None => ret tt
  end.

Fixpoint produce_frames (o : jobject) (Ts : list QMatrix4x4) : M unit :=
  match Ts with
  | [] => ret tt
  | T :: rest => produce_frame o T ;; produce_frames o rest
  end.

(** What the scene graph keeps for the item: the item and the node the
    last [updatePaintNode] returned. *)
Record Scene := mkScene {
  item : QSurfaceTexture;
  paintNode : option SurfaceTextureNode
}.

(** What happens around one traversal: the frames the producer delivers
    before [updatePaintNode], the item's bounding rectangle at that
    time, and the frames delivered between [updatePaintNode] and
    [preprocess]. *)
Record Tick := mkTick {
  frames_before_sync : list QMatrix4x4;
  bounds : QRectF;
  frames_before_render : list QMatrix4x4
}.

Definition with_bounds (this : QSurfaceTexture) (r : QRectF)
  : QSurfaceTexture :=
  mkItem (this_ptr this) (item_flags this) r (mTextureId this)
         (mSurfaceTexture this).

(** the renderer runs [preprocess] on the nodes flagged [UsePreprocess] *)
Definition render (node : SurfaceTextureNode) : M SurfaceTextureNode :=
  if Z.land (node_flags node) UsePreprocess =? 0
  then ret node
  else preprocess node.

(** one traversal: [updatePaintNode] with the node of the previous
    traversal, then the pre-draw hook on the node it returns *)
Definition traversal (tk : Tick) (sc : Scene) : M Scene :=
  produce_frames (mSurfaceTexture (item sc)) (frames_before_sync tk) ;;
  r <- updatePaintNode (with_bounds (item sc) (bounds tk)) (paintNode sc) ;;
  produce_frames (mSurfaceTexture (fst r)) (frames_before_render tk) ;;
  node <- render (snd r) ;;
  ret (mkScene (fst r) (Some node)).

Fixpoint traversals (tks : list Tick) (sc : Scene) : M Scene :=
  match tks with
  | [] => ret sc
  | tk :: rest => sc1 <- traversal tk sc ;; traversals rest sc1
  end.

(** a freshly constructed item, not yet seen by the scene graph *)
Definition construct (ptr : jlong) (mTextureId0 : GLuint) : Scene :=
  mkScene (QSurfaceTexture_ctor ptr mTextureId0) None.

(** teardown: the item's destructor, then the scene graph deletes the
    node it still holds *)
Definition destroy (sc : Scene) : M unit :=
  QSurfaceTexture_dtor (item sc) ;;
  match paintNode sc with
  | Some node => SurfaceTextureNode_dtor node
  | None => ret tt
  end.

(** construct, traverse once per tick, destroy *)
Definition lifecycle (ptr : jlong) (mTextureId0 : GLuint)
    (tks : list Tick) : M unit :=
  sc <- traversals tks (construct ptr mTextureId0) ;;
  destroy sc.

(** *** Reading traces *)

Definition count (p : Call -> bool) (t : list Call) : nat :=
  length (filter p t).

Definition is_texture_create (c : Call) : bool :=
  match c with GlGenTextures _ => true | _ => false end.
Definition is_texture_destroy (c : Call) : bool :=
  match c with GlDeleteTextures _ => true | _ => false end.
Definition is_bind (c : Call) : bool :=
  match c with NewSurfaceTexture _ _ => true | _ => false end.
Definition is_pull (c : Call) : bool :=
  match c with UpdateTexImage _ => true | _ => false end.
Definition is_fetch (c : Call) : bool :=
  match c with GetTransformMatrix _ => true | _ => false end.
Definition is_changed_signal (c : Call) : bool :=
  match c with EmitSurfaceTextureChanged _ => true | _ => false end.
Definition is_geometry_write (c : Call) : bool :=
  match c with UpdateGeometry _ _ => true | _ => false end.
Definition is_mark_dirty (c : Call) : bool :=
  match c with MarkDirty _ => true | _ => false end.

Definition empty_world : World := mkWorld [] [].

(* ================================================================== *)
(** ** Vocabulary of the properties *)

Definition is_invoke (c : Call) : bool :=
  match c with InvokeMethod _ _ _ => true | _ => false end.

(** the node constructor is the one place that takes a global reference *)
Definition is_node_create (c : Call) : bool :=
  match c with NewGlobalRef => true | _ => false end.

(** A node as [SurfaceTextureNode_ctor] builds it, whatever its geometry,
    scratch array and matrix hold by now. *)
Definition node_ok (n : SurfaceTextureNode) : Prop :=
  Z.land (node_flags n) UsePreprocess <> 0 /\
  updateTexMethod n = SurfaceTexture_updateTexImage /\
  getTransformMatrixMethod n = SurfaceTexture_getTransformMatrix /\
  length (m_geometry n) = 4%nat /\
  exists mat, material n = Some mat /\
              length (uSTMatrix (state mat)) = 16%nat.

(** What holds of item and node between traversals: before the first
    one there is neither node nor producer handle; afterwards the node
    is well formed, shares the item's producer handle and texture, and
    the handle names a Java object. *)
Definition scene_ok (sc : Scene) (wd : World) : Prop :=
  match paintNode sc with
  | None => mSurfaceTexture (item sc) = None
  | Some n =>
      node_ok n /\
      obj n = mSurfaceTexture (item sc) /\
      mTextureId (item sc) <> 0 /\
      exists s, heap_load (java_heap wd) (obj n) = Some s
  end.

(** the matrix of the material state the scene holds; the identity of a
    fresh material while there is no node *)
Definition transform_of (sc : Scene) : QMatrix4x4 :=
  match paintNode sc with
  | Some n =>
      match material n with
      | Some mat => uSTMatrix (state mat)
      | None => QMatrix4x4_identity
      end
  | None => QMatrix4x4_identity
  end.

(** the quad [updatePaintNode] writes for an item with bounds [r] *)
Definition quad_of (r : QRectF) : QSGGeometry :=
  updateTexturedRectGeometry (QSGGeometry_new 4) (flip_vertical r) unit_rect.


(** a trace in which the geometry is neither written nor marked dirty *)
Definition geometry_untouched (t : list Call) : Prop :=
  count is_geometry_write t = 0%nat /\
  forall bits, In (MarkDirty bits) t -> Z.land bits DirtyGeometry = 0.

(* ================================================================== *)
(** ** What a traversal and a teardown call *)

(** the node as the constructor returns it *)
Definition fresh_node (st : QAndroidJniObject) (id : GLuint)
  : SurfaceTextureNode :=
  mkNode (Z.lor (Z.lor 0 UsePreprocess) OwnsMaterial)
         (Some (mkMaterial (mkState QMatrix4x4_identity id)
                           (Z.lor 0 Blending)))
         st (QSGGeometry_new 4) (repeat F32.zero 16) id
         SurfaceTexture_updateTexImage SurfaceTexture_getTransformMatrix st.

(** the calls of the [if (!node)] block *)
Definition creation_calls (ptr : jlong) (st : jobject) (id : GLuint)
  : list Call :=
  [GlGenTextures id;
   GlBindTexture GL_TEXTURE_EXTERNAL_OES id;
   GlTexParameterf GL_TEXTURE_EXTERNAL_OES GL_TEXTURE_MIN_FILTER GL_NEAREST;
   GlTexParameterf GL_TEXTURE_EXTERNAL_OES GL_TEXTURE_MAG_FILTER GL_NEAREST;
   GlDisable GL_TEXTURE_2D;
   GlEnable GL_TEXTURE_EXTERNAL_OES;
   NewSurfaceTexture st id;
   NewSurfaceTextureListener ptr;
   SetOnFrameAvailableListener st ptr;
   NewFloatArray 16; NewGlobalRef; DeleteLocalRef;
   GetMethodID SurfaceTexture_class "updateTexImage" "()V";
   GetMethodID SurfaceTexture_class "getTransformMatrix" "([F)V";
   EmitSurfaceTextureChanged ptr].

(** the two calls that close [updatePaintNode] for an item with bounds
    [r] *)
Definition geometry_calls (r : QRectF) : list Call :=
  [UpdateGeometry (flip_vertical r) unit_rect;
   MarkDirty (Z.lor DirtyGeometry DirtyMaterial)].

(** the calls of the item's destructor when it owns texture [id],
    followed by the deletion of the node *)
Definition teardown_calls (id : GLuint) : list Call :=
  [GlBindTexture GL_TEXTURE_EXTERNAL_OES 0; GlDeleteTextures id;
   DeleteGlobalRef].

(** the calls a traversal makes before it touches the geometry: the
    creation block when the scene graph holds no node yet, none after *)
Definition first_time_calls (sc : Scene) (wd : World) : list Call :=
  match paintNode sc with
  | Some _ => []
  | None => creation_calls (this_ptr (item sc))
              (Some (length (java_heap wd))) (fresh_name (gl_textures wd))
  end.

(** the texture the item owns after a traversal *)
Definition texture_after (sc : Scene) (wd : World) : GLuint :=
  match paintNode sc with
  | Some _ => mTextureId (item sc)
  | None => fresh_name (gl_textures wd)
  end.

(** the producer handle the item holds after a traversal *)
Definition handle_after (sc : Scene) (wd : World) : QAndroidJniObject :=
  match paintNode sc with
  | Some _ => mSurfaceTexture (item sc)
  | None => Some (length (java_heap wd))
  end.

(** a class of calls that a traversal with an existing node never makes *)
Definition quiet (p : Call -> bool) : Prop :=
  forall c, (is_invoke c || is_geometry_write c || is_mark_dirty c
             || is_pull c || is_fetch c) = true -> p c = false.

(** *** Sample data *)

(** a transform that swaps the two texture axes *)
Definition sample_transform : QMatrix4x4 :=
  [F32.zero; F32.one; F32.zero; F32.zero;
   F32.one; F32.zero; F32.zero; F32.zero;
   F32.zero; F32.zero; F32.one; F32.zero;
   F32.zero; F32.zero; F32.zero; F32.one].

(** an item after its first traversal ... *)
Definition sample_tick : Tick := mkTick [] (QRectF_of 0 0 640 480) [].

Definition sample_scene : Scene * World * list Call :=
  traversal sample_tick (construct 4096 0) empty_world.

Definition sample_node : SurfaceTextureNode :=
  match paintNode (value sample_scene) with
  | Some node => node
  | None => fresh_node None 0
  end.

(** ... and the world once the producer has delivered two more frames *)
Definition sample_world : World :=
  world (produce_frames (surfaceTexture (item (value sample_scene)))
           [QMatrix4x4_identity; sample_transform] (world sample_scene)).

(* ================================================================== *)
(** ** SurfaceTextureShader *)

(** the character [\n] of a C string literal *)
Definition nl : string := String (Ascii.ascii_of_nat 10) EmptyString.

(** [SurfaceTextureShader::vertexShader()] *)
Definition vertexShader : string :=
  ("uniform mat4 qt_Matrix;                            " ++ nl ++
   "uniform mat4 uSTMatrix;                            " ++ nl ++
   "attribute vec4 aPosition;                          " ++ nl ++
   "attribute vec4 aTextureCoord;                      " ++ nl ++
   "varying vec2 vTextureCoord;                        " ++ nl ++
   "void main() {                                      " ++ nl ++
   "  gl_Position = qt_Matrix * aPosition;             " ++ nl ++
   "  vTextureCoord = (uSTMatrix * aTextureCoord).xy;  " ++ nl ++
   "}")%string.

(** [SurfaceTextureShader::fragmentShader()] *)
Definition fragmentShader : string :=
  ("#extension GL_OES_EGL_image_external : require                     " ++ nl ++
   "precision mediump float;                                           " ++ nl ++
   "varying vec2 vTextureCoord;                                        " ++ nl ++
   "uniform lowp float qt_Opacity;                                     " ++ nl ++
   "uniform samplerExternalOES sTexture;                               " ++ nl ++
   "void main() {                                                      " ++ nl ++
   "  gl_FragColor = texture2D(sTexture, vTextureCoord) * qt_Opacity;  " ++ nl ++
   "}")%string.

(** [SurfaceTextureShader::attributes()] *)
Definition attributes : list string := ["aPosition"; "aTextureCoord"]%string.

(** The GL side of a draw call, as far as [updateState] and
    [resolveUniforms] reach it: the linked program with its active
    uniforms and their current values, the texture unit selected by
    [glActiveTexture], and per unit the texture bound to
    [GL_TEXTURE_EXTERNAL_OES]. *)
Inductive GLSLType :=
| GLSL_mat4
| GLSL_float
| GLSL_samplerExternalOES.

Record ActiveUniform := mkUniform {
  u_name : string;
  u_type : GLSLType;
  u_location : Z
}.

Inductive UniformValue :=
| UniformMatrix4 (m : QMatrix4x4)
| UniformInt (v : Z).

Record QOpenGLShaderProgram := mkProgram {
  active_uniforms : list ActiveUniform;
  uniform_values : list (Z * UniformValue)
}.

Record RenderState := mkRender {
  program : QOpenGLShaderProgram;
  active_texture : Z;
  external_bindings : list (Z * GLuint)
}.

(** finite maps with integer keys, kept without duplicate keys *)
Fixpoint assoc_find {V : Type} (k : Z) (l : list (Z * V)) : option V :=
  match l with
  | [] => None
  | (k', v) :: rest => if k' =? k then Some v else assoc_find k rest
  end.

Fixpoint assoc_remove {V : Type} (k : Z) (l : list (Z * V)) : list (Z * V) :=
  match l with
  | [] => []
  | (k', v) :: rest =>
      if k' =? k then assoc_remove k rest else (k', v) :: assoc_remove k rest
  end.

Definition assoc_store {V : Type} (k : Z) (v : V) (l : list (Z * V))
  : list (Z * V) :=
  (k, v) :: assoc_remove k l.

(** [QOpenGLShaderProgram::uniformLocation(name)]: the location of the
    active uniform of that name, -1 when there is none *)
Definition uniformLocation (p : QOpenGLShaderProgram) (name : string) : Z :=
  match find (fun u => String.eqb (u_name u) name) (active_uniforms p) with
  | Some u => u_location u
  | None => -1
  end.

(** which values a [glUniform*] call may store in a uniform of a type *)
Definition accepts (t : GLSLType) (v : UniformValue) : bool :=
  match t, v with
  | GLSL_mat4, UniformMatrix4 _ => true
  | GLSL_samplerExternalOES, UniformInt _ => true
  | _, _ => false
  end.

(** [glUniformMatrix4fv] / [glUniform1i]: stores the value when the
    location is that of an active uniform of a matching type; any other
    location or type is a GL error and leaves the program as it is *)
Definition glUniform (location : Z) (v : UniformValue)
    (p : QOpenGLShaderProgram) : QOpenGLShaderProgram :=
  match find (fun u => u_location u =? location) (active_uniforms p) with
  | Some u =>
      if accepts (u_type u) v
      then mkProgram (active_uniforms p)
                     (assoc_store location v (uniform_values p))
      else p
  | None => p
  end.

(** [QOpenGLShaderProgram::setUniformValue(int location, value)]:
    [if (location != -1) glUniform...] *)
Definition setUniformValue (location : Z) (v : UniformValue)
    (p : QOpenGLShaderProgram) : QOpenGLShaderProgram :=
  if location =? -1 then p else glUniform location v p.

(** [QOpenGLShaderProgram::setUniformValue(const char *name, value)] *)
Definition setUniformValue_by_name (name : string) (v : UniformValue)
    (p : QOpenGLShaderProgram) : QOpenGLShaderProgram :=
  setUniformValue (uniformLocation p name) v p.

(** [GL_TEXTURE0]; unit [i] is [GL_TEXTURE0 + i] *)
Definition GL_TEXTURE0 : Z := 0x84C0.

Module Draw.

(** [glActiveTexture(texture)] *)
Definition glActiveTexture (texture : Z) (rs : RenderState) : RenderState :=
  mkRender (program rs) (texture - GL_TEXTURE0) (external_bindings rs).

(** [glBindTexture(target, name)] on the selected unit; only the
    external-image target is kept *)
Definition glBindTexture (target : GLenum) (name : GLuint)
    (rs : RenderState) : RenderState :=
  match target with
  | GL_TEXTURE_EXTERNAL_OES =>
      mkRender (program rs) (active_texture rs)
               (assoc_store (active_texture rs) name (external_bindings rs))
  | _ => rs
  end.

End Draw.

Definition with_program (rs : RenderState) (p : QOpenGLShaderProgram)
  : RenderState :=
  mkRender p (active_texture rs) (external_bindings rs).

(** [class SurfaceTextureShader]: its one data member *)
Record SurfaceTextureShader := mkShader {
  m_uSTMatrixLoc : Z
}.

(** [SurfaceTextureShader::updateState(state, old)] *)
Definition updateState (this : SurfaceTextureShader) (state : State)
    (old : option State) (rs : RenderState) : RenderState :=
  let rs := with_program rs
              (setUniformValue (m_uSTMatrixLoc this)
                 (UniformMatrix4 (uSTMatrix state)) (program rs)) in
  let rs := Draw.glActiveTexture GL_TEXTURE0 rs in
  Draw.glBindTexture GL_TEXTURE_EXTERNAL_OES (textureId state) rs.

(** [SurfaceTextureShader::resolveUniforms()] *)
Definition resolveUniforms (this : SurfaceTextureShader) (rs : RenderState)
  : SurfaceTextureShader * RenderState :=
  let this := mkShader (uniformLocation (program rs) "uSTMatrix") in
  (this,
   with_program rs (setUniformValue_by_name "sTexture" (UniformInt 0)
                                            (program rs))).

(** the value the program holds for the uniform of a name *)
Definition uniform_of (rs : RenderState) (name : string)
  : option UniformValue :=
  assoc_find (uniformLocation (program rs) name)
             (uniform_values (program rs)).

(** the texture the sampler of a name reads: the external-image texture
    bound to the unit the sampler uniform holds *)
Definition sampled_texture (rs : RenderState) (name : string)
  : option GLuint :=
  match uniform_of rs name with
  | Some (UniformInt unit) => assoc_find unit (external_bindings rs)
  | _ => None
  end.

(** a linked program: locations are not negative and no two active
    uniforms share a name or a location *)
Definition program_wf (p : QOpenGLShaderProgram) : Prop :=
  NoDup (map u_name (active_uniforms p)) /\
  NoDup (map u_location (active_uniforms p)) /\
  Forall (fun u => 0 <= u_location u) (active_uniforms p).

(** the draw call of the scene graph for the item's node: [updateState]
    with the state of the node's material *)
Definition draw (this : SurfaceTextureShader) (sc : Scene)
    (rs : RenderState) : RenderState :=
  match paintNode sc with
  | Some node =>
      match material node with
      | Some mat => updateState this (state mat) None rs
      | None => rs
      end
  | None => rs
  end.

(* ================================================================== *)
(** ** Vocabulary of the further properties *)

Definition is_global_release (c : Call) : bool :=
  match c with DeleteGlobalRef => true | _ => false end.
Definition is_local_create (c : Call) : bool :=
  match c with NewFloatArray _ => true | _ => false end.
Definition is_local_release (c : Call) : bool :=
  match c with DeleteLocalRef => true | _ => false end.
Definition is_listener_set (c : Call) : bool :=
  match c with SetOnFrameAvailableListener _ _ => true | _ => false end.

(** the calls of a traversal once the node exists *)
Definition is_steady_call (c : Call) : bool :=
  is_invoke c || is_geometry_write c || is_mark_dirty c
  || is_pull c || is_fetch c.

(** the queued call one frame-available notification posts *)
Definition update_post (ptr : jlong) : Call :=
  InvokeMethod ptr "update" QueuedConnection.

(** the posts [Ts] frames cause on an object with listener [l] *)
Definition posts_of (l : option jlong) (Ts : list QMatrix4x4) : list Call :=
  match l with
  | Some ptr => repeat (update_post ptr) (length Ts)
  | None => []
  end.

(** the frames a tick delivers *)
Definition tick_frames (tk : Tick) : list QMatrix4x4 :=
  frames_before_sync tk ++ frames_before_render tk.

(** the frames that reach the item's SurfaceTexture in a run: those of
    the first tick that come before [updatePaintNode] find no
    SurfaceTexture yet *)
Definition run_frames (tks : list Tick) : list QMatrix4x4 :=
  match tks with
  | [] => []
  | tk :: rest => frames_before_render tk ++ flat_map tick_frames rest
  end.

(** item, node, material and Java object name the same producer handle
    and the same live, non-zero texture, and the listener carries the
    item's address *)
Definition scene_agrees (sc : Scene) (wd : World) : Prop :=
  exists node mat s,
    paintNode sc = Some node /\
    material node = Some mat /\
    heap_load (java_heap wd) (surfaceTexture (item sc)) = Some s /\
    obj node = surfaceTexture (item sc) /\
    m_surfaceTexture node = surfaceTexture (item sc) /\
    m_textureId node = mTextureId (item sc) /\
    textureId (state mat) = mTextureId (item sc) /\
    st_texName s = mTextureId (item sc) /\
    st_listener s = Some (this_ptr (item sc)) /\
    st_queued s = [] /\
    In (mTextureId (item sc)) (gl_textures wd) /\
    mTextureId (item sc) <> 0.

(** ... and the material, the scratch array and the Java object hold the
    same sixteen floats [T] *)
Definition scene_synced (sc : Scene) (wd : World) (T : QMatrix4x4) : Prop :=
  length T = 16%nat /\
  exists node mat s,
    paintNode sc = Some node /\
    material node = Some mat /\
    heap_load (java_heap wd) (surfaceTexture (item sc)) = Some s /\
    uSTMatrix (state mat) = T /\
    m_uSTMatrixArray node = T /\
    st_transform s = T.

(** a program as linking the two shaders gives it *)
Definition sample_program : QOpenGLShaderProgram :=
  mkProgram [mkUniform "qt_Matrix" GLSL_mat4 0;
             mkUniform "uSTMatrix" GLSL_mat4 1;
             mkUniform "qt_Opacity" GLSL_float 2;
             mkUniform "sTexture" GLSL_samplerExternalOES 3] [].

Definition sample_render : RenderState := mkRender sample_program 5 [].

(** a run with frames landing before and between the calls *)
Definition sample_ticks : list Tick :=
  [mkTick [sample_transform] (QRectF_of 0 0 640 480) [QMatrix4x4_identity];
   mkTick [QMatrix4x4_identity; sample_transform] (QRectF_of 0 0 320 240) []].

(* ================================================================== *)
(** * Properties *)

(** ** Float comparison and [State::compare] *)

Lemma F32_fields (b : jfloat) :
  F32.is_word b ->
  exists s e m,
    b = s * 2 ^ 31 + e * 2 ^ 23 + m /\
    0 <= s < 2 /\ 0 <= e < 256 /\ 0 <= m < 2 ^ 23 /\
    Z.testbit b 31 = (s =? 1) /\
    F32.exponent b = e /\ F32.fraction b = m /\
    Z.land b 2147483647 = e * 2 ^ 23 + m.
Proof.
  unfold F32.is_word. intros Hb.
  exists (b / 2 ^ 31), ((b / 2 ^ 23) mod 2 ^ 8), (b mod 2 ^ 23).
  pose proof (Z.div_mod b (2 ^ 23) ltac:(lia)) as H1.
  pose proof (Z.mod_pos_bound b (2 ^ 23) ltac:(lia)) as H2.
  pose proof (Z.div_mod (b / 2 ^ 23) (2 ^ 8) ltac:(lia)) as H3.
  pose proof (Z.mod_pos_bound (b / 2 ^ 23) (2 ^ 8) ltac:(lia)) as H4.
  assert (H5 : b / 2 ^ 23 / 2 ^ 8 = b / 2 ^ 31).
  { rewrite Z.div_div by lia. reflexivity. }
  rewrite H5 in H3.
  assert (H6 : 0 <= b / 2 ^ 31 < 2).
  { split; [apply Z.div_pos; lia | apply Z.div_lt_upper_bound; lia]. }
  pose proof (Z.div_mod b (2 ^ 31) ltac:(lia)) as H7.
  pose proof (Z.mod_pos_bound b (2 ^ 31) ltac:(lia)) as H8.
  split; [lia|]. split; [lia|]. split; [lia|]. split; [lia|].
  split.
  { rewrite Z.testbit_eqb by lia.
    assert (b / 2 ^ 31 = 0 \/ b / 2 ^ 31 = 1) as [-> | ->] by lia;
      reflexivity. }
  split.
  { unfold F32.exponent. change 255 with (Z.ones 8).
    rewrite Z.land_ones, Z.shiftr_div_pow2 by lia. reflexivity. }
  split.
  { unfold F32.fraction. change 8388607 with (Z.ones 23).
    rewrite Z.land_ones by lia. reflexivity. }
  change 2147483647 with (Z.ones 31). rewrite Z.land_ones by lia. lia.
Qed.

(** [F32.eq] on two patterns is the IEEE-754 equality of the values they
    stand for. *)
Lemma F32_eq_is_IEEE (a b : jfloat) :
  F32.is_word a -> F32.is_word b ->
  F32.eq a b = SFeqb (F32.decode a) (F32.decode b).
Proof.
  intros Ha Hb.
  destruct (F32_fields a Ha)
    as (sa & ea & ma & Ea & Hsa & Hea & Hma & Ta & Xa & Fa & Za).
  destruct (F32_fields b Hb)
    as (sb & eb & mb & Eb & Hsb & Heb & Hmb & Tb & Xb & Fb & Zb).
  unfold F32.eq, F32.is_nan, F32.is_zero, F32.decode.
  rewrite Ta, Tb, Xa, Xb, Fa, Fb, Za, Zb.
  clear Ta Tb Xa Xb Fa Fb Za Zb Ha Hb. subst a b.
  assert (Hs : forall s, 0 <= s < 2 -> s = 0 \/ s = 1) by lia.
  destruct (Hs sa Hsa) as [-> | ->], (Hs sb Hsb) as [-> | ->];
    clear Hs Hsa Hsb; cbn [Z.eqb Pos.eqb];
    destruct (Z.eqb_spec ea 0) as [-> | Hea0],
             (Z.eqb_spec eb 0) as [-> | Heb0];
    try (destruct (Z.eqb_spec ea 255) as [-> | Hea255]);
    try (destruct (Z.eqb_spec eb 255) as [-> | Heb255]);
    cbn [Z.eqb Pos.eqb andb negb orb];
    try (destruct (Z.eqb_spec ma 0) as [-> | Hma0]);
    try (destruct (Z.eqb_spec mb 0) as [-> | Hmb0]);
    cbn [Z.eqb Pos.eqb andb negb orb SFeqb SFcompare].
  all: try reflexivity.
  all: repeat match goal with
       | |- context [match ?m with Z0 => _ | Zpos _ => _ | Zneg _ => _ end] =>
           destruct m eqn:?; try lia
       end.
  all: cbn [SFeqb SFcompare].
  all: repeat match goal with
       | |- context [Z.compare ?u ?v] => destruct (Z.compare_spec u v)
       | |- context [Pos.compare_cont Eq ?p ?q] =>
           change (Pos.compare_cont Eq p q) with (Pos.compare p q);
           destruct (Pos.compare_spec p q)
       end.
  all: cbn [CompOpp].
  all: repeat match goal with
       | |- context [Z.eqb ?u ?v] => destruct (Z.eqb_spec u v)
       end.
  all: cbn [andb orb negb]; try reflexivity; try (exfalso; lia).
Qed.

Lemma F32_is_zero_cases (b : jfloat) :
  F32.is_word b -> F32.is_zero b = true -> b = F32.zero \/ b = F32.neg_zero.
Proof.
  unfold F32.is_word, F32.is_zero, F32.zero, F32.neg_zero.
  intros Hb Hz. apply Z.eqb_eq in Hz.
  change 2147483647 with (Z.ones 31) in Hz.
  rewrite Z.land_ones in Hz by lia.
  pose proof (Z.div_mod b (2 ^ 31) ltac:(lia)) as Hdm.
  rewrite Hz in Hdm.
  assert (0 <= b / 2 ^ 31 < 2) as Hq.
  { split.
    - apply Z.div_pos; lia.
    - apply Z.div_lt_upper_bound; lia. }
  lia.
Qed.

Lemma F32_eq_refl (b : jfloat) : F32.is_nan b = false -> F32.eq b b = true.
Proof.
  intros Hn. unfold F32.eq. rewrite Hn, Z.eqb_refl. reflexivity.
Qed.

Lemma F32_eq_ordinary (a b : jfloat) :
  F32.ordinary a -> F32.ordinary b -> (F32.eq a b = true <-> a = b).
Proof.
  intros (Wa & Na & Za) (Wb & Nb & Zb). split.
  - unfold F32.eq. rewrite Na, Nb. cbn [negb andb].
    intros H. apply orb_true_iff in H as [H | H].
    + now apply Z.eqb_eq.
    + apply andb_true_iff in H as [Ha Hb].
      destruct (F32_is_zero_cases a Wa Ha), (F32_is_zero_cases b Wb Hb);
        congruence.
  - intros ->. now apply F32_eq_refl.
Qed.

Lemma QMatrix4x4_eq_spec (a b : QMatrix4x4) :
  QMatrix4x4_eq a b = true <->
  forall i, (i < 16)%nat -> F32.eq (nth i a F32.zero) (nth i b F32.zero) = true.
Proof.
  unfold QMatrix4x4_eq. rewrite forallb_forall. split.
  - intros H i Hi. apply H, in_seq. lia.
  - intros H i Hi. apply H. apply in_seq in Hi. lia.
Qed.

Lemma QMatrix4x4_eq_ordinary (a b : QMatrix4x4) :
  length a = 16%nat -> length b = 16%nat ->
  Forall F32.ordinary a -> Forall F32.ordinary b ->
  (QMatrix4x4_eq a b = true <-> a = b).
Proof.
  intros La Lb Fa Fb. rewrite QMatrix4x4_eq_spec.
  rewrite Forall_forall in Fa, Fb. split.
  - intros H. apply (nth_ext a b F32.zero F32.zero); [congruence|].
    intros i Hi. apply F32_eq_ordinary.
    + apply Fa, nth_In. lia.
    + apply Fb, nth_In. lia.
    + apply H. lia.
  - intros -> i Hi. apply F32_eq_refl.
    destruct (Fb (nth i b F32.zero)) as (_ & Hn & _); [|exact Hn].
    apply nth_In. lia.
Qed.

Lemma compare_zero_iff (a b : State) :
  compare a b = 0 <->
  QMatrix4x4_eq (uSTMatrix a) (uSTMatrix b) = true /\ textureId a = textureId b.
Proof.
  unfold compare.
  destruct (QMatrix4x4_eq (uSTMatrix a) (uSTMatrix b)); cbn [andb].
  - destruct (Z.eqb_spec (textureId a) (textureId b)); split;
      intros; try tauto; try discriminate.
  - split; [discriminate | intros [? _]; discriminate].
Qed.

(** C8, as stated, fails: a state holding NaNs is bitwise equal to
    itself, yet [compare] answers -1. *)
Lemma compare_is_not_bitwise :
  let s := mkState (repeat F32.quiet_nan 16) 1 in
  State_wf s /\
  bitwise_equal s s /\
  compare s s = -1 /\
  ~ (compare s s = 0 <-> bitwise_equal s s).
Proof.
  cbn zeta. split; [|split; [|split]].
  - split; [reflexivity|].
    repeat constructor; unfold F32.quiet_nan; lia.
  - split; reflexivity.
  - reflexivity.
  - intros [_ H]. specialize (H (conj eq_refl eq_refl)).
    vm_compute in H. discriminate.
Qed.

(** ... and in the other direction: two states that differ in the sign
    of their zero entries compare equal. *)
Lemma compare_equates_the_zeros :
  compare (mkState (repeat F32.zero 16) 1)
          (mkState (repeat F32.neg_zero 16) 1) = 0 /\
  ~ bitwise_equal (mkState (repeat F32.zero 16) 1)
                  (mkState (repeat F32.neg_zero 16) 1).
Proof.
  split; [reflexivity|]. intros [H _]. discriminate.
Qed.

(** C8 (amended): for states whose sixteen matrix entries are neither a
    NaN nor the negative zero, [State::compare] returns 0 exactly when
    both fields, the texture transform matrix and the texture id, are
    bitwise equal. *)
Theorem compare_ordinary_iff_bitwise (a b : State) :
  State_ordinary a -> State_ordinary b ->
  (compare a b = 0 <-> bitwise_equal a b).
Proof.
  intros [La Fa] [Lb Fb]. rewrite compare_zero_iff. unfold bitwise_equal.
  now rewrite (QMatrix4x4_eq_ordinary _ _ La Lb Fa Fb).
Qed.

Lemma compare_ordinary_iff_bitwise_witness :
  compare (mkState QMatrix4x4_identity 7) (mkState QMatrix4x4_identity 7) = 0
  <-> bitwise_equal (mkState QMatrix4x4_identity 7)
                    (mkState QMatrix4x4_identity 7).
Proof.
  apply (compare_ordinary_iff_bitwise
           (mkState QMatrix4x4_identity 7) (mkState QMatrix4x4_identity 7));
    (split; [reflexivity|]);
    repeat constructor; unfold F32.is_word; cbn; try lia; discriminate.
Defined.

(** ** Running computations *)

Lemma bind_run {A B : Type} (c : M A) (k : A -> M B) (wd : World) :
  bind c k wd =
  (value (k (value (c wd)) (world (c wd))),
   world (k (value (c wd)) (world (c wd))),
   trace (c wd) ++ trace (k (value (c wd)) (world (c wd)))).
Proof. reflexivity. Qed.

Lemma value_run {A : Type} (a : A) (wd : World) (t : list Call) :
  value (a, wd, t) = a.
Proof. reflexivity. Qed.

Lemma world_run {A : Type} (a : A) (wd : World) (t : list Call) :
  world (a, wd, t) = wd.
Proof. reflexivity. Qed.

Lemma trace_run {A : Type} (a : A) (wd : World) (t : list Call) :
  trace (a, wd, t) = t.
Proof. reflexivity. Qed.

Lemma run_eta {A : Type} (r : A * World * list Call) :
  r = (value r, world r, trace r).
Proof. destruct r as [[a wd] t]. reflexivity. Qed.

Lemma count_app (p : Call -> bool) (s t : list Call) :
  count p (s ++ t) = (count p s + count p t)%nat.
Proof. unfold count. now rewrite filter_app, length_app. Qed.

Lemma count_cons (p : Call -> bool) (c : Call) (t : list Call) :
  count p (c :: t) = ((if p c then 1 else 0) + count p t)%nat.
Proof. unfold count. cbn [filter]. destruct (p c); reflexivity. Qed.

Lemma count_only_invokes (p : Call -> bool) (t : list Call) :
  (forall c, is_invoke c = true -> p c = false) ->
  Forall (fun c => is_invoke c = true) t ->
  count p t = 0%nat.
Proof.
  intros Hp Ht. induction Ht as [|c t Hc _ IH]; [reflexivity|].
  rewrite count_cons, (Hp c Hc), IH. reflexivity.
Qed.

(** ** The Java heap *)

Lemma heap_store_at_length hp i s :
  length (heap_store_at hp i s) = length hp.
Proof.
  revert i. induction hp as [|s0 hp IH]; intros [|i]; cbn; auto.
Qed.

Lemma heap_store_at_same hp i s s0 :
  nth_error hp i = Some s0 -> nth_error (heap_store_at hp i s) i = Some s.
Proof.
  revert i. induction hp as [|s1 hp IH]; intros [|i]; cbn; try discriminate; auto.
Qed.

Lemma heap_store_at_valid hp i j s :
  nth_error hp j <> None -> nth_error (heap_store_at hp i s) j <> None.
Proof.
  rewrite !nth_error_Some, heap_store_at_length. auto.
Qed.

Lemma heap_load_store_same hp o s s0 :
  heap_load hp o = Some s0 -> heap_load (heap_store hp o s) o = Some s.
Proof.
  destruct o as [i|]; cbn; [apply heap_store_at_same | discriminate].
Qed.

Lemma heap_load_store_valid hp o o' s :
  heap_load hp o' <> None -> heap_load (heap_store hp o s) o' <> None.
Proof.
  destruct o as [i|], o' as [j|]; cbn; auto using heap_store_at_valid.
Qed.

Lemma on_object_run o f wd :
  on_object o f wd =
  (tt,
   match heap_load (java_heap wd) o with
   | Some s => mkWorld (gl_textures wd) (heap_store (java_heap wd) o (f s))
   | None => wd
   end,
   []).
Proof.
  unfold on_object. rewrite bind_run. cbn.
  destruct (heap_load (java_heap wd) o); reflexivity.
Qed.

Lemma updateTexImage_run o wd :
  updateTexImage o wd =
  (tt,
   match heap_load (java_heap wd) o with
   | Some s => mkWorld (gl_textures wd) (heap_store (java_heap wd) o (latch s))
   | None => wd
   end,
   [UpdateTexImage o]).
Proof.
  unfold updateTexImage. rewrite bind_run, on_object_run. reflexivity.
Qed.

Lemma getTransformMatrix_run o mtx wd :
  getTransformMatrix o mtx wd =
  (match heap_load (java_heap wd) o with
   | Some s => st_transform s
   | None => mtx
   end, wd, [GetTransformMatrix o]).
Proof.
  unfold getTransformMatrix. rewrite bind_run. cbn.
  destruct (heap_load (java_heap wd) o); reflexivity.
Qed.

(** ** The pre-draw hook *)

Lemma preprocess_run node mat s wd :
  material node = Some mat ->
  updateTexMethod node = SurfaceTexture_updateTexImage ->
  getTransformMatrixMethod node = SurfaceTexture_getTransformMatrix ->
  heap_load (java_heap wd) (obj node) = Some s ->
  preprocess node wd =
  (with_transform node mat (st_transform (latch s))
     (GetFloatArrayRegion (st_transform (latch s)) 0 16
                          (uSTMatrix (state mat))),
   mkWorld (gl_textures wd) (heap_store (java_heap wd) (obj node) (latch s)),
   [UpdateTexImage (obj node); GetTransformMatrix (obj node)]).
Proof.
  intros Hmat Hup Hget Hs. unfold preprocess. rewrite Hmat, Hup, Hget.
  cbn [CallVoidMethod CallVoidMethodA].
  rewrite bind_run, updateTexImage_run, Hs.
  unfold value, world, trace. cbn [fst snd].
  rewrite bind_run, getTransformMatrix_run. cbn [java_heap].
  rewrite (heap_load_store_same _ _ _ _ Hs). reflexivity.
Qed.

Lemma GetFloatArrayRegion_all (array buf : list jfloat) :
  length array = 16%nat -> length buf = 16%nat ->
  GetFloatArrayRegion array 0 16 buf = array.
Proof.
  intros La Lb. unfold GetFloatArrayRegion.
  rewrite La, Nat.leb_refl. change (skipn 0 array) with array.
  rewrite (firstn_all2 array) by lia.
  rewrite (skipn_all2 buf) by lia. apply app_nil_r.
Qed.

Lemma GetFloatArrayRegion_length (array buf : list jfloat) :
  length buf = 16%nat ->
  length (GetFloatArrayRegion array 0 16 buf) = 16%nat.
Proof.
  intros Lb. unfold GetFloatArrayRegion.
  destruct (Nat.leb_spec (0 + 16) (length array)) as [H|H]; [|exact Lb].
  change (skipn 0 array) with array.
  rewrite length_app, length_firstn, length_skipn. lia.
Qed.

(** C9: when the node's material is null, [preprocess] returns at once:
    it makes no call at all (so neither [updateTexImage] nor
    [getTransformMatrix]), and leaves the node and the world as they
    were. *)
Theorem preprocess_null_material (node : SurfaceTextureNode) (wd : World) :
  material node = None ->
  preprocess node wd = (node, wd, []).
Proof.
  intros Hmat. unfold preprocess. rewrite Hmat. reflexivity.
Qed.

Lemma preprocess_null_material_witness :
  preprocess
    (mkNode UsePreprocess None (Some 0%nat) (QSGGeometry_new 4)
            (repeat F32.zero 16) 1 SurfaceTexture_updateTexImage
            SurfaceTexture_getTransformMatrix (Some 0%nat))
    (mkWorld [1] [mkSurfaceTexture 1 None [[F32.one]] QMatrix4x4_identity])
  = (mkNode UsePreprocess None (Some 0%nat) (QSGGeometry_new 4)
            (repeat F32.zero 16) 1 SurfaceTexture_updateTexImage
            SurfaceTexture_getTransformMatrix (Some 0%nat),
     mkWorld [1] [mkSurfaceTexture 1 None [[F32.one]] QMatrix4x4_identity],
     []).
Proof.
  apply (preprocess_null_material
           (mkNode UsePreprocess None (Some 0%nat) (QSGGeometry_new 4)
                   (repeat F32.zero 16) 1 SurfaceTexture_updateTexImage
                   SurfaceTexture_getTransformMatrix (Some 0%nat))).
  reflexivity.
Defined.

(** C3: if the producer, once pulled, reports the sixteen floats [T],
    then [preprocess] leaves exactly [T] in the material state's matrix:
    every one of the sixteen patterns is the producer's, none of the old
    matrix survives, and this is the state the draw call that follows
    will read. *)
Theorem preprocess_publishes_transform
    (node : SurfaceTextureNode) (wd : World) (T : list jfloat) :
  node_ok node ->
  value (getTransformMatrix (obj node) (m_uSTMatrixArray node)
           (world (updateTexImage (obj node) wd))) = T ->
  length T = 16%nat ->
  exists mat,
    material (value (preprocess node wd)) = Some mat /\
    uSTMatrix (state mat) = T.
Proof.
  intros (_ & Hup & Hget & _ & mat & Hmat & Hlen) HT HlenT.
  unfold preprocess. rewrite Hmat, Hup, Hget.
  cbn [CallVoidMethod CallVoidMethodA].
  rewrite !bind_run. unfold value at 1. cbn [fst snd].
  unfold ret, value at 1. cbn [fst snd with_transform material].
  eexists. split; [reflexivity|]. cbn [state uSTMatrix].
  unfold world in HT |- *. unfold value in HT |- *. rewrite HT.
  now apply GetFloatArrayRegion_all.
Qed.

Lemma preprocess_publishes_transform_witness :
  exists mat,
    material (value (preprocess sample_node sample_world)) = Some mat /\
    uSTMatrix (state mat) = sample_transform.
Proof.
  apply (preprocess_publishes_transform sample_node sample_world
                                        sample_transform).
  - unfold node_ok. vm_compute. repeat split; try discriminate.
    eexists. split; reflexivity.
  - vm_compute. reflexivity.
  - reflexivity.
Defined.

(** ** [updatePaintNode] *)

Lemma heap_store_at_last hp s s' :
  heap_store_at (hp ++ [s]) (length hp) s' = hp ++ [s'].
Proof. induction hp as [|s0 hp IH]; cbn; [reflexivity | now rewrite IH]. Qed.

Lemma heap_load_last hp s :
  heap_load (hp ++ [s]) (Some (length hp)) = Some s.
Proof.
  cbn. rewrite nth_error_app2, Nat.sub_diag by lia. reflexivity.
Qed.

Lemma create_node_run this wd :
  let id := fresh_name (gl_textures wd) in
  let st := Some (length (java_heap wd)) in
  create_node this wd =
  (mkItem (this_ptr this) (item_flags this) (boundingRect this) id st,
   fresh_node st id,
   mkWorld (id :: gl_textures wd)
           (java_heap wd ++
            [mkSurfaceTexture id (Some (this_ptr this)) []
                              QMatrix4x4_identity]),
   creation_calls (this_ptr this) st id).
Proof.
  intros id st. unfold create_node.
  repeat (rewrite bind_run; cbn -[heap_load heap_store fresh_name QMatrix4x4_identity]).
  unfold setOnFrameAvailableListener.
  repeat (rewrite bind_run; cbn -[heap_load heap_store fresh_name QMatrix4x4_identity]).
  rewrite heap_load_last.
  cbn -[fresh_name QMatrix4x4_identity].
  rewrite heap_store_at_last. reflexivity.
Qed.

Lemma updatePaintNode_old_node this node wd :
  updatePaintNode this (Some node) wd =
  (this,
   with_geometry node
     (updateTexturedRectGeometry (m_geometry node)
        (flip_vertical (boundingRect this)) unit_rect),
   wd,
   geometry_calls (boundingRect this)).
Proof. destruct this; reflexivity. Qed.

Lemma updatePaintNode_no_node this wd :
  let id := fresh_name (gl_textures wd) in
  let st := Some (length (java_heap wd)) in
  updatePaintNode this None wd =
  (mkItem (this_ptr this) (item_flags this) (boundingRect this) id st,
   with_geometry (fresh_node st id)
     (updateTexturedRectGeometry (QSGGeometry_new 4)
        (flip_vertical (boundingRect this)) unit_rect),
   mkWorld (id :: gl_textures wd)
           (java_heap wd ++
            [mkSurfaceTexture id (Some (this_ptr this)) []
                              QMatrix4x4_identity]),
   creation_calls (this_ptr this) st id ++ geometry_calls (boundingRect this)).
Proof.
  intros id st. unfold updatePaintNode.
  rewrite bind_run, create_node_run. reflexivity.
Qed.

Lemma updateTexturedRectGeometry_quad g r :
  length g = 4%nat ->
  updateTexturedRectGeometry g (flip_vertical r) unit_rect = quad_of r.
Proof.
  intros Hg. unfold quad_of, updateTexturedRectGeometry.
  rewrite (skipn_all2 g) by lia. reflexivity.
Qed.

(** [updatePaintNode] decides on the node alone: handed no node, it
    runs the creation block whatever the item already owns.  The
    exactly-once properties below therefore rest on the scene graph
    handing back the node of the previous traversal. *)
Lemma updatePaintNode_without_node_creates this wd :
  filter is_texture_create (trace (updatePaintNode this None wd)) =
    [GlGenTextures (fresh_name (gl_textures wd))] /\
  filter is_changed_signal (trace (updatePaintNode this None wd)) =
    [EmitSurfaceTextureChanged (this_ptr this)].
Proof. rewrite updatePaintNode_no_node. split; reflexivity. Qed.

(** ** The producer *)

Lemma produce_frame_run o T wd :
  produce_frame o T wd =
  match heap_load (java_heap wd) o with
  | Some s =>
      (tt,
       mkWorld (gl_textures wd)
         (heap_store (java_heap wd) o
            (mkSurfaceTexture (st_texName s) (st_listener s)
                              (st_queued s ++ [T]) (st_transform s))),
       match st_listener s with
       | Some ptr => [InvokeMethod ptr "update" QueuedConnection]
       | None => []
       end)
  | None => (tt, wd, [])
  end.
Proof.
  unfold produce_frame. rewrite bind_run. cbn -[heap_load heap_store on_object].
  destruct (heap_load (java_heap wd) o) as [s|] eqn:Hs; [|reflexivity].
  rewrite bind_run, on_object_run, Hs.
  unfold value, world, trace. cbn [fst snd].
  destruct (st_listener s); reflexivity.
Qed.

Lemma produce_frames_null Ts wd : produce_frames None Ts wd = (tt, wd, []).
Proof.
  induction Ts as [|T Ts IH]; [reflexivity|].
  cbn [produce_frames]. rewrite bind_run, produce_frame_run. cbn [heap_load].
  unfold value, world, trace. cbn [fst snd]. rewrite IH. reflexivity.
Qed.

Lemma produce_frames_only_invokes o Ts wd :
  Forall (fun c => is_invoke c = true) (trace (produce_frames o Ts wd)).
Proof.
  revert wd. induction Ts as [|T Ts IH]; intros wd; [constructor|].
  cbn [produce_frames]. rewrite bind_run. unfold trace at 1. cbn [snd].
  apply Forall_app. split; [|apply IH].
  rewrite produce_frame_run.
  destruct (heap_load (java_heap wd) o) as [s|]; [|constructor].
  unfold trace. cbn [snd].
  destruct (st_listener s); repeat constructor.
Qed.

Lemma produce_frames_valid o Ts wd o' :
  heap_load (java_heap wd) o' <> None ->
  heap_load (java_heap (world (produce_frames o Ts wd))) o' <> None.
Proof.
  revert wd. induction Ts as [|T Ts IH]; intros wd Hv; [exact Hv|].
  cbn [produce_frames]. rewrite bind_run. unfold world at 1. cbn [fst snd].
  apply IH. rewrite produce_frame_run.
  destruct (heap_load (java_heap wd) o); [|exact Hv].
  unfold world. cbn [fst snd java_heap]. now apply heap_load_store_valid.
Qed.

(** ** One traversal *)

Lemma render_run node wd : node_ok node -> render node wd = preprocess node wd.
Proof.
  intros (Hf & _). unfold render.
  destruct (Z.eqb_spec (Z.land (node_flags node) UsePreprocess) 0);
    [contradiction | reflexivity].
Qed.

Lemma with_geometry_ok node g :
  node_ok node -> length g = 4%nat -> node_ok (with_geometry node g).
Proof.
  intros (Hf & Hu & Hg & _ & Hm) Hlen. repeat split; assumption.
Qed.

Lemma fresh_node_ok st id : node_ok (fresh_node st id).
Proof.
  repeat split; try discriminate. eexists. split; reflexivity.
Qed.

Lemma quad_of_length r : length (quad_of r) = 4%nat.
Proof. reflexivity. Qed.

Lemma fresh_name_nonzero used : fresh_name used <> 0.
Proof.
  unfold fresh_name.
  assert (0 <= fold_right Z.max 0 used).
  { induction used as [|n used IH]; cbn [fold_right]; lia. }
  lia.
Qed.

Lemma heap_load_valid hp o :
  heap_load hp o <> None -> exists s, heap_load hp o = Some s.
Proof. destruct (heap_load hp o) as [s|]; [eauto | congruence]. Qed.

Lemma bind_eq {A B : Type} (c : M A) (k : A -> M B) wd a wd1 t1 b wd2 t2 :
  c wd = (a, wd1, t1) -> k a wd1 = (b, wd2, t2) ->
  bind c k wd = (b, wd2, t1 ++ t2).
Proof. intros Hc Hk. rewrite bind_run, Hc. cbn. rewrite Hk. reflexivity. Qed.

Lemma traversal_old_node tk it n mat wd s2 :
  let r1 := produce_frames (mSurfaceTexture it) (frames_before_sync tk) wd in
  let r2 := produce_frames (mSurfaceTexture it) (frames_before_render tk)
                           (world r1) in
  let n1 := with_geometry n (quad_of (bounds tk)) in
  node_ok n -> material n = Some mat ->
  heap_load (java_heap (world r2)) (obj n) = Some s2 ->
  traversal tk (mkScene it (Some n)) wd =
  (mkScene (with_bounds it (bounds tk))
     (Some (with_transform n1 mat (st_transform (latch s2))
              (GetFloatArrayRegion (st_transform (latch s2)) 0 16
                                   (uSTMatrix (state mat))))),
   mkWorld (gl_textures (world r2))
           (heap_store (java_heap (world r2)) (obj n) (latch s2)),
   trace r1 ++ geometry_calls (bounds tk) ++ trace r2 ++
   [UpdateTexImage (obj n); GetTransformMatrix (obj n)] ++ []).
Proof.
  intros r1 r2 n1 Hnode Hmat Hs2.
  pose proof Hnode as (Hf & Hu & Hg & Hlen & _).
  assert (Hn1 : node_ok n1)
    by (apply with_geometry_ok; auto using quad_of_length).
  unfold traversal. cbn [item paintNode].
  eapply bind_eq; [apply run_eta|]. fold r1.
  eapply bind_eq.
  { rewrite updatePaintNode_old_node. cbn [with_bounds boundingRect].
    rewrite (updateTexturedRectGeometry_quad _ _ Hlen). reflexivity. }
  cbn [fst snd with_bounds mSurfaceTexture].
  eapply bind_eq; [apply run_eta|]. fold r2.
  eapply bind_eq; [|reflexivity].
  rewrite (render_run _ _ Hn1).
  apply (preprocess_run n1 mat s2 (world r2) Hmat Hu Hg Hs2).
Qed.

Lemma traversal_no_node tk it wd s2 :
  let id := fresh_name (gl_textures wd) in
  let st := Some (length (java_heap wd)) in
  let wd1 := mkWorld (id :: gl_textures wd)
               (java_heap wd ++
                [mkSurfaceTexture id (Some (this_ptr it)) []
                                  QMatrix4x4_identity]) in
  let r2 := produce_frames st (frames_before_render tk) wd1 in
  let n1 := with_geometry (fresh_node st id) (quad_of (bounds tk)) in
  mSurfaceTexture it = None ->
  heap_load (java_heap (world r2)) st = Some s2 ->
  traversal tk (mkScene it None) wd =
  (mkScene (mkItem (this_ptr it) (item_flags it) (bounds tk) id st)
     (Some (with_transform n1
              (mkMaterial (mkState QMatrix4x4_identity id) (Z.lor 0 Blending))
              (st_transform (latch s2))
              (GetFloatArrayRegion (st_transform (latch s2)) 0 16
                                   QMatrix4x4_identity))),
   mkWorld (gl_textures (world r2))
           (heap_store (java_heap (world r2)) st (latch s2)),
   [] ++ (creation_calls (this_ptr it) st id ++ geometry_calls (bounds tk)) ++
   trace r2 ++ [UpdateTexImage st; GetTransformMatrix st] ++ []).
Proof.
  intros id st wd1 r2 n1 Hnull Hs2.
  assert (Hn1 : node_ok n1)
    by (apply with_geometry_ok; auto using quad_of_length, fresh_node_ok).
  unfold traversal. cbn [item paintNode]. rewrite Hnull.
  eapply bind_eq; [apply produce_frames_null|].
  eapply bind_eq.
  { rewrite updatePaintNode_no_node.
    cbn [with_bounds boundingRect this_ptr item_flags].
    reflexivity. }
  cbn [fst snd mSurfaceTexture].
  eapply bind_eq; [apply run_eta|]. fold id st wd1 r2.
  eapply bind_eq; [|reflexivity].
  rewrite (render_run _ _ Hn1).
  apply (preprocess_run n1 _ s2 (world r2) eq_refl eq_refl eq_refl Hs2).
Qed.

Lemma traversal_run (tk : Tick) (sc : Scene) (wd : World) :
  scene_ok sc wd ->
  let r := traversal tk sc wd in
  let o := mSurfaceTexture (item (value r)) in
  exists inv1 inv2 s node mat,
    Forall (fun c => is_invoke c = true) inv1 /\
    Forall (fun c => is_invoke c = true) inv2 /\
    trace r = inv1 ++ first_time_calls sc wd ++ geometry_calls (bounds tk)
                   ++ inv2 ++ [UpdateTexImage o; GetTransformMatrix o] /\
    heap_load (java_heap (world r)) o = Some s /\
    paintNode (value r) = Some node /\
    material node = Some mat /\
    m_uSTMatrixArray node = st_transform s /\
    uSTMatrix (state mat) =
      GetFloatArrayRegion (st_transform s) 0 16 (transform_of sc) /\
    m_geometry node = quad_of (bounds tk) /\
    this_ptr (item (value r)) = this_ptr (item sc) /\
    mTextureId (item (value r)) = texture_after sc wd /\
    o = handle_after sc wd /\
    scene_ok (value r) (world r).
Proof.
  intros Hok. destruct sc as [it [n|]]; unfold scene_ok in Hok;
    cbn [paintNode item] in Hok.
  - (* the scene graph hands the old node back *)
    destruct Hok as (Hnode & Hobj & Hid & Hvalid).
    pose proof Hnode as (Hf & Hu & Hg & Hlen & mat & Hmat & Hmlen).
    set (r1 := produce_frames (mSurfaceTexture it) (frames_before_sync tk) wd).
    set (r2 := produce_frames (mSurfaceTexture it) (frames_before_render tk)
                              (world r1)).
    assert (Hv2 : heap_load (java_heap (world r2)) (obj n) <> None).
    { subst r2 r1. apply produce_frames_valid, produce_frames_valid.
      destruct Hvalid as [s Hs]. congruence. }
    apply heap_load_valid in Hv2 as [s2 Hs2].
    rewrite (traversal_old_node tk it n mat wd s2 Hnode Hmat Hs2).
    fold r1 r2.
    unfold value, world, trace.
    cbn [fst snd item paintNode with_bounds mSurfaceTexture this_ptr
         mTextureId first_time_calls texture_after handle_after transform_of].
    rewrite Hmat, <- Hobj.
    exists (snd r1), (snd r2), (latch s2). eexists. eexists.
    split; [apply produce_frames_only_invokes|].
    split; [apply produce_frames_only_invokes|].
    split. { cbn [app]. reflexivity. }
    split. { cbn [java_heap]. eapply heap_load_store_same, Hs2. }
    split; [reflexivity|].
    split; [reflexivity|].
    split; [reflexivity|].
    split; [reflexivity|].
    split; [reflexivity|].
    split; [reflexivity|].
    split; [reflexivity|].
    split; [first [exact Hobj | reflexivity]|].
    unfold scene_ok. cbn [paintNode item mTextureId mSurfaceTexture].
    split.
    { repeat split; try assumption. eexists. split; [reflexivity|].
      cbn [state uSTMatrix]. now apply GetFloatArrayRegion_length. }
    split; [exact Hobj|]. split; [exact Hid|].
    eexists. cbn [obj with_transform with_geometry java_heap].
    eapply heap_load_store_same, Hs2.
  - (* first traversal: no node yet *)
    cbn [mSurfaceTexture] in Hok.
    set (id := fresh_name (gl_textures wd)).
    set (st := Some (length (java_heap wd))).
    set (wd1 := mkWorld (id :: gl_textures wd)
                  (java_heap wd ++
                   [mkSurfaceTexture id (Some (this_ptr it)) []
                                     QMatrix4x4_identity])).
    set (r2 := produce_frames st (frames_before_render tk) wd1).
    assert (Hv2 : heap_load (java_heap (world r2)) st <> None).
    { subst r2. apply produce_frames_valid.
      subst st wd1. cbn [java_heap]. rewrite heap_load_last. discriminate. }
    apply heap_load_valid in Hv2 as [s2 Hs2].
    rewrite (traversal_no_node tk it wd s2 Hok Hs2).
    fold id st wd1 r2.
    unfold value, world, trace.
    cbn [fst snd item paintNode mSurfaceTexture this_ptr
         mTextureId first_time_calls texture_after handle_after transform_of].
    exists [], (snd r2), (latch s2). eexists. eexists.
    split; [constructor|].
    split; [apply produce_frames_only_invokes|].
    split. { cbn [app]. rewrite <- !app_assoc. reflexivity. }
    split. { cbn [java_heap]. eapply heap_load_store_same, Hs2. }
    split; [reflexivity|].
    split; [reflexivity|].
    split; [reflexivity|].
    split; [reflexivity|].
    split; [reflexivity|].
    split; [reflexivity|].
    split; [reflexivity|].
    split; [first [exact Hobj | reflexivity]|].
    unfold scene_ok. cbn [paintNode item mTextureId mSurfaceTexture].
    split.
    { repeat split; try discriminate. eexists. split; [reflexivity|].
      cbn [state uSTMatrix]. now apply GetFloatArrayRegion_length. }
    split; [reflexivity|]. split; [apply fresh_name_nonzero|].
    eexists. cbn [obj with_transform with_geometry fresh_node java_heap].
    eapply heap_load_store_same, Hs2.
Qed.

Ltac quiet_class :=
  let c := fresh "c" in intros c; destruct c; cbn; congruence.

Lemma quiet_texture_create : quiet is_texture_create.
Proof. quiet_class. Qed.
Lemma quiet_texture_destroy : quiet is_texture_destroy.
Proof. quiet_class. Qed.
Lemma quiet_bind : quiet is_bind.
Proof. quiet_class. Qed.
Lemma quiet_node_create : quiet is_node_create.
Proof. quiet_class. Qed.
Lemma quiet_changed_signal : quiet is_changed_signal.
Proof. quiet_class. Qed.

Create HintDb quiet.
#[local] Hint Resolve quiet_texture_create quiet_texture_destroy quiet_bind
  quiet_node_create quiet_changed_signal : quiet.

Lemma filter_only_invokes (p : Call -> bool) (t : list Call) :
  (forall c, is_invoke c = true -> p c = false) ->
  Forall (fun c => is_invoke c = true) t ->
  filter p t = [].
Proof.
  intros Hp Ht. induction Ht as [|c t Hc _ IH]; [reflexivity|].
  cbn [filter]. now rewrite (Hp c Hc).
Qed.

Lemma quiet_invoke p c : quiet p -> is_invoke c = true -> p c = false.
Proof. intros Hq Hc. apply Hq. now rewrite Hc. Qed.

Lemma construct_ok ptr id0 wd : scene_ok (construct ptr id0) wd.
Proof. reflexivity. Qed.

(** the calls of a traversal that fall in a quiet class are those of
    the creation block *)
Lemma traversal_filter_quiet p tk sc wd :
  quiet p -> scene_ok sc wd ->
  filter p (trace (traversal tk sc wd)) = filter p (first_time_calls sc wd).
Proof.
  intros Hq Hok.
  destruct (traversal_run tk sc wd Hok)
    as (inv1 & inv2 & s & node & mat & H1 & H2 & Ht & _).
  rewrite Ht, !filter_app.
  rewrite (filter_only_invokes p inv1), (filter_only_invokes p inv2);
    auto using quiet_invoke.
  cbn [filter geometry_calls app].
  rewrite !Hq by reflexivity. now rewrite !app_nil_r.
Qed.

Lemma traversal_keeps_node tk sc wd :
  scene_ok sc wd -> paintNode (value (traversal tk sc wd)) <> None.
Proof.
  intros Hok.
  destruct (traversal_run tk sc wd Hok)
    as (_ & _ & _ & node & _ & _ & _ & _ & _ & Hn & _).
  congruence.
Qed.

Lemma traversal_ok tk sc wd :
  scene_ok sc wd ->
  scene_ok (value (traversal tk sc wd)) (world (traversal tk sc wd)).
Proof.
  intros Hok.
  destruct (traversal_run tk sc wd Hok)
    as (_ & _ & _ & _ & _ & _ & _ & _ & _ & _ & _ & _ & _ & _ & _ & _ & _ & H).
  exact H.
Qed.

Lemma traversals_cons tk tks sc wd :
  traversals (tk :: tks) sc wd =
  (value (traversals tks (value (traversal tk sc wd))
                         (world (traversal tk sc wd))),
   world (traversals tks (value (traversal tk sc wd))
                         (world (traversal tk sc wd))),
   trace (traversal tk sc wd) ++
   trace (traversals tks (value (traversal tk sc wd))
                         (world (traversal tk sc wd)))).
Proof. reflexivity. Qed.

Lemma traversals_ok tks sc wd :
  scene_ok sc wd ->
  scene_ok (value (traversals tks sc wd)) (world (traversals tks sc wd)).
Proof.
  revert sc wd. induction tks as [|tk tks IH]; intros sc wd Hok; [exact Hok|].
  rewrite traversals_cons. apply IH, traversal_ok, Hok.
Qed.

(** once the node exists, nothing of a quiet class happens again, and
    the item keeps its address, its texture and its producer handle *)
Lemma later_traversals tks sc wd :
  scene_ok sc wd -> paintNode sc <> None ->
  let r := traversals tks sc wd in
  (forall p, quiet p -> filter p (trace r) = []) /\
  paintNode (value r) <> None /\
  this_ptr (item (value r)) = this_ptr (item sc) /\
  mTextureId (item (value r)) = mTextureId (item sc) /\
  mSurfaceTexture (item (value r)) = mSurfaceTexture (item sc).
Proof.
  revert sc wd. induction tks as [|tk tks IH]; intros sc wd Hok Hn.
  - cbn. repeat split; auto.
  - pose proof (traversal_ok tk sc wd Hok) as Hok1.
    pose proof (traversal_keeps_node tk sc wd Hok) as Hn1.
    pose proof (traversal_filter_quiet) as Hfq.
    specialize (fun p Hp => Hfq p tk sc wd Hp Hok).
    destruct (traversal_run tk sc wd Hok)
      as (_ & _ & _ & _ & _ & _ & _ & _ & _ & _ & _ & _ & _
          & _ & Hp1 & Hid1 & Hst1 & _).
    cbn zeta in Hst1.
    unfold first_time_calls in Hfq.
    unfold texture_after in Hid1. unfold handle_after in Hst1.
    destruct (paintNode sc) as [n|] eqn:Hpn; [clear Hn|congruence].
    set (r1 := traversal tk sc wd) in *.
    destruct (IH _ _ Hok1 Hn1) as (Hq & Hnode & Hptr & Hid & Hst).
    cbn zeta. rewrite traversals_cons. fold r1.
    rewrite value_run, trace_run.
    split.
    { intros p Hp. now rewrite filter_app, (Hq p Hp), app_nil_r, Hfq. }
    split; [exact Hnode|].
    split; [congruence|].
    split; congruence.
Qed.

(** ** Pulls per traversal *)

(** pulls and fetches are counted alike: one of each per traversal *)
Lemma one_pull_per_traversal tks sc wd :
  scene_ok sc wd ->
  count is_pull (trace (traversals tks sc wd)) = length tks /\
  count is_fetch (trace (traversals tks sc wd)) = length tks.
Proof.
  revert sc wd. induction tks as [|tk tks IH]; intros sc wd Hok.
  - split; reflexivity.
  - rewrite traversals_cons, trace_run, !count_app.
    destruct (IH _ _ (traversal_ok tk sc wd Hok)) as [-> ->].
    destruct (traversal_run tk sc wd Hok)
      as (inv1 & inv2 & _ & _ & _ & H1 & H2 & Ht & _).
    cbn zeta in Ht. rewrite Ht, !count_app.
    rewrite !(count_only_invokes _ inv1), !(count_only_invokes _ inv2)
      by (try assumption; intros []; cbn; congruence).
    unfold first_time_calls. destruct (paintNode sc); split; reflexivity.
Qed.

(** ** Teardown and whole runs *)

Lemma destroy_trace sc wd :
  mTextureId (item sc) <> 0 -> paintNode sc <> None ->
  trace (destroy sc wd) = teardown_calls (mTextureId (item sc)).
Proof.
  intros Hid Hn. unfold destroy, QSurfaceTexture_dtor.
  destruct (Z.eqb_spec (mTextureId (item sc)) 0) as [|_]; [contradiction|].
  destruct (paintNode sc); [reflexivity | congruence].
Qed.

Lemma run_with_a_traversal ptr id0 tk tks wd :
  let id := fresh_name (gl_textures wd) in
  let st := Some (length (java_heap wd)) in
  let first := traversal tk (construct ptr id0) wd in
  let later := traversals tks (value first) (world first) in
  id <> 0 /\
  trace (lifecycle ptr id0 (tk :: tks) wd) =
    (trace first ++ trace later) ++ teardown_calls id /\
  (forall p, quiet p ->
     filter p (trace first) = filter p (creation_calls ptr st id)) /\
  (forall p, quiet p -> filter p (trace later) = []) /\
  surfaceTexture (item (value first)) = st.
Proof.
  intros id st first later.
  pose proof (construct_ok ptr id0 wd) as Hok0.
  pose proof (traversal_ok tk _ _ Hok0) as Hok1.
  pose proof (traversal_keeps_node tk _ _ Hok0) as Hn1.
  destruct (traversal_run tk _ _ Hok0)
    as (_ & _ & _ & _ & _ & _ & _ & _ & _ & _ & _ & _ & _
        & _ & _ & Hid1 & Hst1 & _).
  fold first in Hok1, Hn1, Hid1, Hst1.
  cbn [texture_after handle_after construct paintNode] in Hid1, Hst1.
  destruct (later_traversals tks _ _ Hok1 Hn1) as (Hq & Hn & _ & Hid & _).
  fold later in Hq, Hn, Hid.
  split; [apply fresh_name_nonzero|].
  split.
  { unfold lifecycle. rewrite bind_run, trace_run, traversals_cons.
    fold first. fold later. rewrite value_run, world_run, trace_run.
    rewrite destroy_trace; [| rewrite Hid, Hid1; apply fresh_name_nonzero
                            | exact Hn].
    now rewrite Hid, Hid1. }
  split; [| split; [exact Hq | exact Hst1]].
  intros p Hp. apply (traversal_filter_quiet p tk _ wd Hp Hok0).
Qed.

(** C4: in every run construct, one or more traversals, destroy, the
    texture is generated exactly once and the SurfaceTexture is bound to
    it exactly once, both in the first traversal together with the one
    construction of the node; the texture is deleted exactly once, by
    the destructor at the end of the run, and it is the texture that
    was generated. *)
Theorem lifecycle_exactly_once
    (ptr : jlong) (mTextureId0 : GLuint) (tk : Tick) (tks : list Tick)
    (wd : World) :
  let first := traversal tk (construct ptr mTextureId0) wd in
  let run := lifecycle ptr mTextureId0 (tk :: tks) wd in
  exists (id : GLuint) (st : jobject) (body : list Call),
    id <> 0 /\
    filter is_texture_create (trace first) = [GlGenTextures id] /\
    filter is_bind (trace first) = [NewSurfaceTexture st id] /\
    count is_node_create (trace first) = 1%nat /\
    filter is_texture_create (trace run) = [GlGenTextures id] /\
    filter is_bind (trace run) = [NewSurfaceTexture st id] /\
    count is_node_create (trace run) = 1%nat /\
    filter is_texture_destroy (trace run) = [GlDeleteTextures id] /\
    trace run = body ++ teardown_calls id.
Proof.
  cbn zeta.
  destruct (run_with_a_traversal ptr mTextureId0 tk tks wd)
    as (Hid & Hrun & Hfirst & Hlater & _).
  eexists _, _, _. split; [exact Hid|].
  assert (Hwhole : forall p, quiet p ->
            filter p (trace (lifecycle ptr mTextureId0 (tk :: tks) wd)) =
            filter p (creation_calls ptr (Some (length (java_heap wd)))
                        (fresh_name (gl_textures wd)))
            ++ filter p (teardown_calls (fresh_name (gl_textures wd)))).
  { intros p Hp.
    now rewrite Hrun, !filter_app, (Hfirst p Hp), (Hlater p Hp), app_nil_r. }
  unfold count.
  rewrite !Hfirst, !Hwhole by auto with quiet.
  repeat split. exact Hrun.
Qed.

(** C7: [surfaceTextureChanged] is emitted in the first traversal, the
    one in which the item's SurfaceTexture handle turns from invalid to
    valid, and in no later traversal nor at teardown: once in the whole
    life of the item. *)
Theorem surfaceTextureChanged_once
    (ptr : jlong) (mTextureId0 : GLuint) (tk : Tick) (tks : list Tick)
    (wd : World) :
  let first := traversal tk (construct ptr mTextureId0) wd in
  let later := traversals tks (value first) (world first) in
  let run := lifecycle ptr mTextureId0 (tk :: tks) wd in
  surfaceTexture (item (construct ptr mTextureId0)) = None /\
  surfaceTexture (item (value first)) <> None /\
  filter is_changed_signal (trace first) = [EmitSurfaceTextureChanged ptr] /\
  count is_changed_signal (trace later) = 0%nat /\
  count is_changed_signal (trace run) = 1%nat.
Proof.
  cbn zeta.
  destruct (run_with_a_traversal ptr mTextureId0 tk tks wd)
    as (_ & Hrun & Hfirst & Hlater & Hst).
  split; [reflexivity|].
  split; [rewrite Hst; discriminate|].
  split; [now rewrite Hfirst by auto with quiet|].
  unfold count.
  rewrite Hrun, !filter_app, Hfirst, !Hlater by auto with quiet.
  split; reflexivity.
Qed.

(** ** Geometry *)

(** [a + (-a)] is the positive zero: the two mantissas are aligned at
    the same exponent and cancel before any rounding *)
Lemma qreal_add_opp (s : bool) (m : positive) (e : Z) :
  (S754_finite s m e + S754_finite (negb s) m e)%qreal = S754_zero false.
Proof.
  unfold qreal_add, SFadd, shl_align.
  rewrite Z.min_id, Z.sub_diag. cbn [fst].
  destruct s; cbn [negb cond_Zopp];
    [rewrite Z.add_opp_diag_l | rewrite Z.add_opp_diag_r]; reflexivity.
Qed.

(** the flip of a rectangle whose top is 0: origin and height are exactly
    the old bottom and the negated height *)
Lemma flip_vertical_at_origin (x0 w0 h0 : qreal) :
  is_finite h0 = true ->
  let r := mkRectF x0 (qreal_of_Z 0) w0 h0 in
  flip_vertical r = mkRectF x0 (bottom r) w0 (qreal_of_Z 0 - bottom r)%qreal /\
  (bottom r + (qreal_of_Z 0 - bottom r))%qreal = qreal_of_Z 0.
Proof.
  intros Hh. cbn zeta.
  unfold flip_vertical, setTop, setBottom, top, bottom. cbn [xp yp w h].
  destruct h0 as [s|s| |s m e]; try discriminate.
  - destruct s; split; reflexivity.
  - change (qreal_of_Z 0) with (S754_zero false).
    change (S754_zero false + S754_finite s m e)%qreal
      with (S754_finite s m e).
    change (S754_finite s m e - S754_zero false)%qreal
      with (S754_finite s m e).
    change (S754_zero false + S754_finite s m e)%qreal
      with (S754_finite s m e).
    change (of_float (to_float (S754_zero false))) with (S754_zero false).
    change (S754_zero false - S754_finite s m e)%qreal
      with (S754_finite (negb s) m e).
    split; [reflexivity|apply qreal_add_opp].
Qed.



Lemma preprocess_calls node wd :
  forall c, In c (trace (preprocess node wd)) ->
            is_pull c = true \/ is_fetch c = true.
Proof.
  unfold preprocess. destruct (material node) as [mat|]; [|intros c []].
  destruct (updateTexMethod node), (getTransformMatrixMethod node);
    cbn [CallVoidMethod CallVoidMethodA];
    rewrite ?bind_run, ?updateTexImage_run, ?getTransformMatrix_run;
    repeat (rewrite ?bind_run, ?value_run, ?world_run, ?trace_run,
              ?updateTexImage_run, ?getTransformMatrix_run);
    cbn [ret trace snd app];
    intros c Hc; repeat (destruct Hc as [<- | Hc]; [auto|]); destruct Hc.
Qed.

Lemma filter_none (p : Call -> bool) (t : list Call) :
  (forall c, In c t -> p c = false) -> filter p t = [].
Proof.
  induction t as [|c t IH]; intros H; [reflexivity|].
  cbn [filter]. rewrite (H c (or_introl eq_refl)).
  apply IH. intros c' Hc'. apply H. now right.
Qed.

(** of the calls of a traversal, those that write or dirty the geometry
    are the two that close [updatePaintNode] *)
Lemma traversal_filter_geometry p tk sc wd :
  (forall c, p c = true -> is_geometry_write c = true \/ is_mark_dirty c = true) ->
  scene_ok sc wd ->
  filter p (trace (traversal tk sc wd)) = filter p (geometry_calls (bounds tk)).
Proof.
  intros Hp Hok.
  assert (Hno : forall c, is_geometry_write c = false ->
                          is_mark_dirty c = false -> p c = false).
  { intros c Hg Hd. destruct (p c) eqn:Hpc; [|reflexivity].
    destruct (Hp c Hpc); congruence. }
  destruct (traversal_run tk sc wd Hok)
    as (inv1 & inv2 & s & node & mat & H1 & H2 & Ht & _).
  cbn zeta in Ht. rewrite Ht, !filter_app.
  rewrite (filter_none p inv1), (filter_none p inv2).
  - rewrite (filter_none p (first_time_calls sc wd)).
    + rewrite (filter_none p [_; _]); [now rewrite !app_nil_r|].
      intros c Hc. apply Hno;
        repeat (destruct Hc as [<- | Hc]; [reflexivity|]); destruct Hc.
    + unfold first_time_calls. destruct (paintNode sc); [intros c []|].
      intros c Hc. apply Hno;
        repeat (destruct Hc as [<- | Hc]; [reflexivity|]); destruct Hc.
  - rewrite Forall_forall in H2. intros c Hc. specialize (H2 c Hc).
    apply Hno; destruct c; try discriminate; reflexivity.
  - rewrite Forall_forall in H1. intros c Hc. specialize (H1 c Hc).
    apply Hno; destruct c; try discriminate; reflexivity.
Qed.

(** C5, as stated, fails: two traversals with the same bounding
    rectangle; the second one still rewrites the quad and marks the
    geometry dirty. *)
Lemma unchanged_bounds_still_rewrite_geometry :
  let tk := mkTick [] (QRectF_of 0 0 640 480) [] in
  let first := traversal tk (construct 4096 0) empty_world in
  let second := traversal tk (value first) (world first) in
  boundingRect (item (value first)) = bounds tk /\
  ~ geometry_untouched (trace second).
Proof.
  cbn zeta. split; [reflexivity|].
  intros [Hwrite _]. vm_compute in Hwrite. discriminate.
Qed.

(** C5 (amended): on every traversal, whether or not the bounding
    rectangle changed, [updatePaintNode] rewrites the quad from the
    vertically flipped rectangle and marks the node dirty once, for
    geometry and material together; the vertices written depend on the
    bounds alone, so with unchanged bounds they are the ones already
    there.  [preprocess] marks nothing dirty and writes no geometry. *)
Theorem every_traversal_rewrites_geometry
    (ptr : jlong) (mTextureId0 : GLuint) (tks : list Tick) (tk : Tick)
    (wd : World) :
  let before := traversals tks (construct ptr mTextureId0) wd in
  let r := traversal tk (value before) (world before) in
  filter is_geometry_write (trace r) =
    [UpdateGeometry (flip_vertical (bounds tk)) unit_rect] /\
  filter is_mark_dirty (trace r) =
    [MarkDirty (Z.lor DirtyGeometry DirtyMaterial)] /\
  Z.land (Z.lor DirtyGeometry DirtyMaterial) DirtyGeometry = DirtyGeometry /\
  Z.land (Z.lor DirtyGeometry DirtyMaterial) DirtyMaterial = DirtyMaterial /\
  (exists node, paintNode (value r) = Some node /\
                m_geometry node = quad_of (bounds tk)) /\
  (forall node wd',
     count is_mark_dirty (trace (preprocess node wd')) = 0%nat /\
     count is_geometry_write (trace (preprocess node wd')) = 0%nat).
Proof.
  cbn zeta.
  assert (Hok : scene_ok (value (traversals tks (construct ptr mTextureId0) wd))
                         (world (traversals tks (construct ptr mTextureId0) wd)))
    by apply traversals_ok, construct_ok.
  rewrite !traversal_filter_geometry by auto.
  split; [reflexivity|]. split; [reflexivity|].
  split; [reflexivity|]. split; [reflexivity|].
  split.
  - destruct (traversal_run tk _ _ Hok)
      as (_ & _ & _ & node & _ & _ & _ & _ & _ & Hn & _ & _ & _ & Hg & _).
    eauto.
  - intros node wd'. unfold count.
    rewrite !filter_none; [split; reflexivity | |];
      intros c Hc; destruct (preprocess_calls node wd' c Hc);
      destruct c; try discriminate; reflexivity.
Qed.




(** C10: a destructor that finds [mTextureId] still zero makes no GL
    call and changes nothing; an item destroyed before any traversal
    therefore deletes no texture, and in every run the textures deleted
    are as many as the textures generated. *)
Theorem dtor_without_texture
    (this : QSurfaceTexture) (ptr : jlong) (tks : list Tick) (wd : World) :
  mTextureId this = 0 ->
  QSurfaceTexture_dtor this wd = (tt, wd, []) /\
  lifecycle ptr 0 [] wd = (tt, wd, []) /\
  count is_texture_destroy (trace (lifecycle ptr 0 tks wd)) =
  count is_texture_create (trace (lifecycle ptr 0 tks wd)).
Proof.
  intros Hid. split; [|split].
  - unfold QSurfaceTexture_dtor. rewrite Hid. reflexivity.
  - reflexivity.
  - destruct tks as [|tk tks]; [reflexivity|].
    destruct (run_with_a_traversal ptr 0 tk tks wd)
      as (_ & Hrun & Hfirst & Hlater & _).
    unfold count. rewrite Hrun, !filter_app.
    rewrite !Hfirst, !Hlater by auto with quiet.
    reflexivity.
Qed.

Lemma dtor_without_texture_witness :
  QSurfaceTexture_dtor (QSurfaceTexture_ctor 4096 0) empty_world
    = (tt, empty_world, []) /\
  lifecycle 4096 0 [] empty_world = (tt, empty_world, []) /\
  count is_texture_destroy
    (trace (lifecycle 4096 0 [mkTick [] (QRectF_of 0 0 640 480) []] empty_world))
  = count is_texture_create
    (trace (lifecycle 4096 0 [mkTick [] (QRectF_of 0 0 640 480) []] empty_world)).
Proof.
  apply (dtor_without_texture (QSurfaceTexture_ctor 4096 0) 4096
           [mkTick [] (QRectF_of 0 0 640 480) []] empty_world).
  reflexivity.
Defined.

(** [frameAvailable] only posts: one queued call of the item's [update]
    per notification, nothing pulled, nothing changed. *)
Lemma frameAvailable_only_posts (ptr : jlong) (wd : World) :
  Java_com_vadim_android_SurfaceTextureListener_frameAvailable ptr wd =
  (tt, wd, [InvokeMethod ptr "update" QueuedConnection]).
Proof. reflexivity. Qed.

(* ================================================================== *)
(** * Further properties *)

(** ** [State::compare] as a relation *)

Lemma F32_eq_sym (a b : jfloat) : F32.eq a b = F32.eq b a.
Proof.
  unfold F32.eq. rewrite (Z.eqb_sym a b).
  destruct (F32.is_nan a), (F32.is_nan b), (b =? a),
           (F32.is_zero a), (F32.is_zero b); reflexivity.
Qed.

Lemma F32_eq_trans (a b c : jfloat) :
  F32.eq a b = true -> F32.eq b c = true -> F32.eq a c = true.
Proof.
  unfold F32.eq. intros Hab Hbc.
  destruct (F32.is_nan a); [discriminate|].
  destruct (F32.is_nan c); [now rewrite andb_false_r in Hbc|].
  destruct (F32.is_nan b); [discriminate|]. cbn [negb andb] in *.
  destruct (Z.eqb_spec a b) as [->|_]; [exact Hbc|].
  destruct (Z.eqb_spec b c) as [<-|_].
  - cbn [orb] in Hab. rewrite Hab. apply orb_true_r.
  - cbn [orb] in Hab, Hbc.
    apply andb_true_iff in Hab as [-> _], Hbc as [_ ->]. apply orb_true_r.
Qed.

Lemma QMatrix4x4_eq_sym (a b : QMatrix4x4) :
  QMatrix4x4_eq a b = QMatrix4x4_eq b a.
Proof.
  unfold QMatrix4x4_eq.
  induction (seq 0 16) as [|i l IH]; [reflexivity|].
  cbn [forallb]. now rewrite IH, F32_eq_sym.
Qed.

(** X1: [compare] does not depend on the order of its two states. *)
Theorem compare_symmetric (a b : State) : compare a b = compare b a.
Proof.
  unfold compare.
  now rewrite QMatrix4x4_eq_sym, (Z.eqb_sym (textureId a)).
Qed.

(** X2: equality under [compare] chains: if [a] equals [b] and [b]
    equals [c], then [a] equals [c]. *)
Theorem compare_transitive (a b c : State) :
  compare a b = 0 -> compare b c = 0 -> compare a c = 0.
Proof.
  rewrite !compare_zero_iff, !QMatrix4x4_eq_spec.
  intros [Hab Iab] [Hbc Ibc]. split; [|congruence].
  intros i Hi. eapply F32_eq_trans; eauto.
Qed.

Lemma compare_transitive_witness :
  compare (mkState (repeat F32.zero 16) 3)
          (mkState (repeat F32.zero 16) 3) = 0.
Proof.
  apply (compare_transitive (mkState (repeat F32.zero 16) 3)
                            (mkState (repeat F32.neg_zero 16) 3)
                            (mkState (repeat F32.zero 16) 3));
    reflexivity.
Defined.

(** X3: a state compares equal to itself exactly when none of the
    sixteen entries of its matrix is a NaN. *)
Theorem compare_reflexive_iff_no_nan (s : State) :
  compare s s = 0 <->
  forall i, (i < 16)%nat -> F32.is_nan (nth i (uSTMatrix s) F32.zero) = false.
Proof.
  rewrite compare_zero_iff, QMatrix4x4_eq_spec. split.
  - intros [H _] i Hi. specialize (H i Hi). unfold F32.eq in H.
    destruct (F32.is_nan _); [discriminate | reflexivity].
  - intros H. split; [|reflexivity].
    intros i Hi. apply F32_eq_refl, H, Hi.
Qed.

(** ** The shader: [resolveUniforms] and [updateState] *)

Lemma assoc_find_remove_same {V : Type} (k : Z) (l : list (Z * V)) :
  assoc_find k (assoc_remove k l) = None.
Proof.
  induction l as [|[k' v] l IH]; [reflexivity|]. cbn [assoc_remove].
  destruct (Z.eqb_spec k' k) as [->|Hk]; [exact IH|].
  cbn [assoc_find]. destruct (Z.eqb_spec k' k); [contradiction | exact IH].
Qed.

Lemma assoc_find_remove_other {V : Type} (k k' : Z) (l : list (Z * V)) :
  k <> k' -> assoc_find k' (assoc_remove k l) = assoc_find k' l.
Proof.
  intros Hk. induction l as [|[k0 v] l IH]; [reflexivity|].
  cbn [assoc_remove assoc_find].
  destruct (Z.eqb_spec k0 k) as [->|H0].
  - destruct (Z.eqb_spec k k'); [contradiction | exact IH].
  - cbn [assoc_find]. now rewrite IH.
Qed.

Lemma assoc_find_store_same {V : Type} (k : Z) (v : V) (l : list (Z * V)) :
  assoc_find k (assoc_store k v l) = Some v.
Proof. unfold assoc_store. cbn [assoc_find]. now rewrite Z.eqb_refl. Qed.

Lemma assoc_find_store_other {V : Type} (k k' : Z) (v : V)
    (l : list (Z * V)) :
  k <> k' -> assoc_find k' (assoc_store k v l) = assoc_find k' l.
Proof.
  intros Hk. unfold assoc_store. cbn [assoc_find].
  destruct (Z.eqb_spec k k'); [contradiction|].
  now apply assoc_find_remove_other.
Qed.

Lemma assoc_remove_idem {V : Type} (k : Z) (l : list (Z * V)) :
  assoc_remove k (assoc_remove k l) = assoc_remove k l.
Proof.
  induction l as [|[k' v] l IH]; [reflexivity|]. cbn [assoc_remove].
  destruct (Z.eqb_spec k' k) as [->|Hk]; [exact IH|].
  cbn [assoc_remove]. destruct (Z.eqb_spec k' k); [contradiction|].
  now rewrite IH.
Qed.

Lemma assoc_store_store {V : Type} (k : Z) (v1 v2 : V) (l : list (Z * V)) :
  assoc_store k v2 (assoc_store k v1 l) = assoc_store k v2 l.
Proof.
  unfold assoc_store. cbn [assoc_remove].
  now rewrite Z.eqb_refl, assoc_remove_idem.
Qed.

Lemma NoDup_map_inj {A B : Type} (f : A -> B) (l : list A) (a b : A) :
  NoDup (map f l) -> In a l -> In b l -> f a = f b -> a = b.
Proof.
  induction l as [|c l IH]; intros Hnd Ha Hb Hab; [destruct Ha|].
  cbn [map] in Hnd. inversion Hnd as [|? ? Hnotin Hnd']; subst.
  destruct Ha as [<-|Ha], Hb as [<-|Hb]; auto.
  - exfalso. apply Hnotin. rewrite Hab. now apply in_map.
  - exfalso. apply Hnotin. rewrite <- Hab. now apply in_map.
Qed.

Lemma find_unique {A : Type} (p : A -> bool) (l : list A) (a : A) :
  In a l -> p a = true ->
  (forall b, In b l -> p b = true -> b = a) ->
  find p l = Some a.
Proof.
  induction l as [|c l IH]; intros Ha Hp Hu; [destruct Ha|].
  cbn [find]. destruct (p c) eqn:Hc.
  - f_equal. apply Hu; [now left | exact Hc].
  - destruct Ha as [->|Ha]; [congruence|].
    apply IH; auto. intros b Hb. apply Hu. now right.
Qed.

Lemma uniformLocation_active (p : QOpenGLShaderProgram) (u : ActiveUniform) :
  program_wf p -> In u (active_uniforms p) ->
  uniformLocation p (u_name u) = u_location u.
Proof.
  intros (Hn & _ & _) Hu. unfold uniformLocation.
  rewrite (find_unique _ _ u Hu); [reflexivity | apply String.eqb_refl |].
  intros b Hb Hbn. apply String.eqb_eq in Hbn.
  eapply NoDup_map_inj; eauto.
Qed.

Lemma glUniform_active (p : QOpenGLShaderProgram) (u : ActiveUniform)
    (v : UniformValue) :
  program_wf p -> In u (active_uniforms p) -> accepts (u_type u) v = true ->
  glUniform (u_location u) v p =
  mkProgram (active_uniforms p)
            (assoc_store (u_location u) v (uniform_values p)).
Proof.
  intros (_ & Hl & _) Hu Hacc. unfold glUniform.
  rewrite (find_unique _ _ u Hu); [now rewrite Hacc | apply Z.eqb_refl |].
  intros b Hb Hbl. apply Z.eqb_eq in Hbl.
  eapply NoDup_map_inj; eauto.
Qed.

Lemma setUniformValue_active (p : QOpenGLShaderProgram) (u : ActiveUniform)
    (v : UniformValue) :
  program_wf p -> In u (active_uniforms p) -> accepts (u_type u) v = true ->
  setUniformValue (u_location u) v p =
  mkProgram (active_uniforms p)
            (assoc_store (u_location u) v (uniform_values p)).
Proof.
  intros Hwf Hu Hacc. unfold setUniformValue.
  pose proof Hwf as (_ & _ & Hpos). rewrite Forall_forall in Hpos.
  specialize (Hpos u Hu).
  destruct (Z.eqb_spec (u_location u) (-1)); [lia|].
  now apply glUniform_active.
Qed.

Lemma resolve_update_core
    (this : SurfaceTextureShader) (st : State) (old : option State)
    (rs : RenderState) (lm ls : Z) :
  program_wf (program rs) ->
  In (mkUniform "uSTMatrix" GLSL_mat4 lm) (active_uniforms (program rs)) ->
  In (mkUniform "sTexture" GLSL_samplerExternalOES ls)
     (active_uniforms (program rs)) ->
  let resolved := resolveUniforms this rs in
  let rs' := updateState (fst resolved) st old (snd resolved) in
  m_uSTMatrixLoc (fst resolved) = lm /\
  uniform_of rs' "uSTMatrix" = Some (UniformMatrix4 (uSTMatrix st)) /\
  uniform_of rs' "sTexture" = Some (UniformInt 0) /\
  sampled_texture rs' "sTexture" = Some (textureId st).
Proof.
  intros Hwf Hm Hs. cbn zeta.
  pose proof (uniformLocation_active _ _ Hwf Hm) as Lm.
  pose proof (uniformLocation_active _ _ Hwf Hs) as Ls.
  cbn [u_name u_location] in Lm, Ls.
  assert (Hne : lm <> ls).
  { intros ->. destruct Hwf as (_ & Hl & _).
    pose proof (NoDup_map_inj u_location _ _ _ Hl Hm Hs eq_refl).
    discriminate. }
  unfold resolveUniforms, updateState, setUniformValue_by_name.
  cbn [fst snd m_uSTMatrixLoc with_program program].
  rewrite Lm, Ls.
  pose proof (setUniformValue_active _ _ (UniformInt 0) Hwf Hs eq_refl) as E1.
  cbn [u_location] in E1. rewrite E1. clear E1.
  set (p1 := mkProgram _ _).
  assert (Hwf1 : program_wf p1) by exact Hwf.
  assert (Hm1 : In (mkUniform "uSTMatrix" GLSL_mat4 lm) (active_uniforms p1))
    by exact Hm.
  assert (Hs1 : In (mkUniform "sTexture" GLSL_samplerExternalOES ls)
                   (active_uniforms p1)) by exact Hs.
  pose proof (setUniformValue_active p1 _ (UniformMatrix4 (uSTMatrix st))
                Hwf1 Hm1 eq_refl) as E2.
  cbn [u_location] in E2. rewrite E2. clear E2.
  set (p2 := mkProgram _ _).
  assert (Hwf2 : program_wf p2) by exact Hwf.
  assert (Lm2 : uniformLocation p2 "uSTMatrix" = lm)
    by exact (uniformLocation_active p2 _ Hwf2 Hm).
  assert (Ls2 : uniformLocation p2 "sTexture" = ls)
    by exact (uniformLocation_active p2 _ Hwf2 Hs).
  unfold sampled_texture, uniform_of, Draw.glBindTexture,
    Draw.glActiveTexture, with_program.
  cbn [program active_texture external_bindings].
  rewrite Lm2, Ls2. subst p2 p1. cbn [uniform_values].
  rewrite assoc_find_store_same.
  rewrite assoc_find_store_other by exact Hne.
  rewrite assoc_find_store_same, Z.sub_diag, assoc_find_store_same.
  repeat split.
Qed.


(** X4: in a linked program whose active uniforms include the matrix
    [uSTMatrix] and the sampler [sTexture], [resolveUniforms] followed
    by [updateState] leaves the state's matrix in [uSTMatrix], and the
    sampler reads the unit on which the state's texture is bound. *)
Theorem resolve_then_update_state
    (this : SurfaceTextureShader) (st : State) (old : option State)
    (rs : RenderState) (lm ls : Z) :
  program_wf (program rs) ->
  In (mkUniform "uSTMatrix" GLSL_mat4 lm) (active_uniforms (program rs)) ->
  In (mkUniform "sTexture" GLSL_samplerExternalOES ls)
     (active_uniforms (program rs)) ->
  let resolved := resolveUniforms this rs in
  let rs' := updateState (fst resolved) st old (snd resolved) in
  m_uSTMatrixLoc (fst resolved) = lm /\
  uniform_of rs' "uSTMatrix" = Some (UniformMatrix4 (uSTMatrix st)) /\
  uniform_of rs' "sTexture" = Some (UniformInt 0) /\
  sampled_texture rs' "sTexture" = Some (textureId st).
Proof.
  intros Hwf Hm Hs.
  destruct (resolve_update_core this st old rs lm ls Hwf Hm Hs)
    as (Hloc & Hmatrix & Hsampler & Htexture).
  repeat split; assumption.
Qed.

Lemma resolve_then_update_state_witness :
  let resolved := resolveUniforms (mkShader 77) sample_render in
  let rs' := updateState (fst resolved) (mkState sample_transform 9) None
                         (snd resolved) in
  m_uSTMatrixLoc (fst resolved) = 1 /\
  uniform_of rs' "uSTMatrix" = Some (UniformMatrix4 sample_transform) /\
  uniform_of rs' "sTexture" = Some (UniformInt 0) /\
  sampled_texture rs' "sTexture" = Some 9.
Proof.
  apply (resolve_then_update_state (mkShader 77)
           (mkState sample_transform 9) None sample_render 1 3).
  - repeat split; cbn; repeat constructor; cbn; try lia;
      intuition discriminate.
  - cbn. auto.
  - cbn. auto.
Defined.

Lemma glUniform_matrix_twice (location : Z) (m1 m2 : QMatrix4x4)
    (p : QOpenGLShaderProgram) :
  glUniform location (UniformMatrix4 m2)
            (glUniform location (UniformMatrix4 m1) p) =
  glUniform location (UniformMatrix4 m2) p.
Proof.
  unfold glUniform.
  destruct (find _ (active_uniforms p)) as [u|] eqn:Hf; [|now rewrite Hf].
  destruct (u_type u) eqn:Ht; cbn [accepts active_uniforms];
    rewrite Hf, Ht; cbn [accepts uniform_values active_uniforms];
    rewrite ?assoc_store_store; reflexivity.
Qed.

(** X5: [updateState] forgets what an earlier [updateState] left: two
    calls in a row give the render state of the second alone, whatever
    the old-state arguments were. *)
Theorem updateState_last_wins
    (this : SurfaceTextureShader) (s1 s2 : State) (o1 o2 o : option State)
    (rs : RenderState) :
  updateState this s2 o2 (updateState this s1 o1 rs) =
  updateState this s2 o rs.
Proof.
  unfold updateState, Draw.glBindTexture, Draw.glActiveTexture, with_program.
  cbn [program active_texture external_bindings].
  rewrite assoc_store_store. f_equal.
  unfold setUniformValue. destruct (m_uSTMatrixLoc this =? -1); [reflexivity|].
  apply glUniform_matrix_twice.
Qed.

(** X6: [updateState] selects texture unit 0 and, apart from that,
    touches only the location kept in [m_uSTMatrixLoc] and the
    external-image binding of unit 0: the set of active uniforms, the
    value at every other location and the binding of every other unit
    are as before. *)
Theorem updateState_untouched
    (this : SurfaceTextureShader) (st : State) (old : option State)
    (rs : RenderState) (location unit : Z) :
  location <> m_uSTMatrixLoc this -> unit <> 0 ->
  let rs' := updateState this st old rs in
  active_texture rs' = 0 /\
  active_uniforms (program rs') = active_uniforms (program rs) /\
  assoc_find location (uniform_values (program rs')) =
    assoc_find location (uniform_values (program rs)) /\
  assoc_find unit (external_bindings rs') =
    assoc_find unit (external_bindings rs).
Proof.
  intros Hl Hu. cbn zeta.
  unfold updateState, Draw.glBindTexture, Draw.glActiveTexture, with_program.
  cbn [program active_texture external_bindings]. rewrite Z.sub_diag.
  split; [reflexivity|].
  rewrite (assoc_find_store_other 0 unit) by auto.
  unfold setUniformValue, glUniform.
  destruct (m_uSTMatrixLoc this =? -1); [auto|].
  destruct (find _ _) as [u|]; [|auto].
  destruct (accepts _ _); [|auto].
  cbn [active_uniforms uniform_values].
  rewrite assoc_find_store_other by auto. auto.
Qed.

Lemma updateState_untouched_witness :
  let rs := mkRender (mkProgram (active_uniforms sample_program)
                                [(3, UniformInt 0)]) 4 [(2, 11)] in
  let rs' := updateState (mkShader 1) (mkState sample_transform 9) None rs in
  active_texture rs' = 0 /\
  active_uniforms (program rs') = active_uniforms (program rs) /\
  assoc_find 3 (uniform_values (program rs')) =
    assoc_find 3 (uniform_values (program rs)) /\
  assoc_find 2 (external_bindings rs') = assoc_find 2 (external_bindings rs).
Proof.
  apply (updateState_untouched (mkShader 1) (mkState sample_transform 9) None
           (mkRender (mkProgram (active_uniforms sample_program)
                                [(3, UniformInt 0)]) 4 [(2, 11)]) 3 2).
  - cbn. lia.
  - lia.
Defined.

(** X7: when the program has no active uniform named [uSTMatrix],
    [resolveUniforms] keeps -1 and every later [updateState] uploads no
    matrix: the program stays as it is, while the state's texture is
    still bound on unit 0. *)
Theorem updateState_without_matrix_uniform
    (this : SurfaceTextureShader) (st : State) (old : option State)
    (rs : RenderState) :
  (forall u, In u (active_uniforms (program rs)) ->
             u_name u <> "uSTMatrix"%string) ->
  let resolved := resolveUniforms this rs in
  let rs' := updateState (fst resolved) st old (snd resolved) in
  m_uSTMatrixLoc (fst resolved) = -1 /\
  program rs' = program (snd resolved) /\
  active_texture rs' = 0 /\
  assoc_find 0 (external_bindings rs') = Some (textureId st).
Proof.
  intros Hno. cbn zeta.
  assert (Hloc : uniformLocation (program rs) "uSTMatrix" = -1).
  { unfold uniformLocation.
    destruct (find _ _) as [u|] eqn:Hf; [|reflexivity].
    apply find_some in Hf as [Hin Hname]. apply String.eqb_eq in Hname.
    now destruct (Hno u Hin). }
  unfold resolveUniforms, updateState. cbn [fst snd m_uSTMatrixLoc].
  rewrite Hloc.
  unfold Draw.glBindTexture, Draw.glActiveTexture, with_program,
    setUniformValue.
  cbn [program active_texture external_bindings Z.eqb Pos.eqb].
  rewrite Z.sub_diag.
  repeat split; try apply assoc_find_store_same.
Qed.

Lemma updateState_without_matrix_uniform_witness :
  let rs := mkRender (mkProgram [mkUniform "sTexture"
                                   GLSL_samplerExternalOES 0] []) 2 [] in
  let resolved := resolveUniforms (mkShader 5) rs in
  let rs' := updateState (fst resolved) (mkState sample_transform 9) None
                         (snd resolved) in
  m_uSTMatrixLoc (fst resolved) = -1 /\
  program rs' = program (snd resolved) /\
  active_texture rs' = 0 /\
  assoc_find 0 (external_bindings rs') = Some 9.
Proof.
  apply (updateState_without_matrix_uniform (mkShader 5)
           (mkState sample_transform 9) None
           (mkRender (mkProgram [mkUniform "sTexture"
                                   GLSL_samplerExternalOES 0] []) 2 [])).
  cbn. intros u [<- | []]. discriminate.
Defined.

(** ** The producer's object *)

Lemma last_nonempty {A : Type} (x : A) (l : list A) (d1 d2 : A) :
  last (x :: l) d1 = last (x :: l) d2.
Proof.
  revert x. induction l as [|y l IH]; intros x; [reflexivity|].
  change (last (y :: l) d1 = last (y :: l) d2). apply IH.
Qed.

Lemma last_cons {A : Type} (x : A) (l : list A) (d : A) :
  last (x :: l) d = last l x.
Proof.
  destruct l as [|y l]; [reflexivity|].
  change (last (y :: l) d = last (y :: l) x). apply last_nonempty.
Qed.

Lemma last_app_default {A : Type} (a b : list A) (d : A) :
  last (a ++ b) d = last b (last a d).
Proof.
  revert d. induction a as [|x a IH]; intros d; [reflexivity|].
  cbn [app]. rewrite !last_cons. apply IH.
Qed.

Lemma latch_fields (s : SurfaceTexture) :
  st_texName (latch s) = st_texName s /\
  st_listener (latch s) = st_listener s /\
  st_queued (latch s) = [] /\
  st_transform (latch s) = last (st_queued s) (st_transform s).
Proof.
  unfold latch. destruct (st_queued s) as [|f fs] eqn:Hq; cbn -[last].
  - auto.
  - repeat split. now rewrite last_cons.
Qed.

Lemma produce_frames_same o Ts wd s :
  heap_load (java_heap wd) o = Some s ->
  heap_load (java_heap (world (produce_frames o Ts wd))) o =
    Some (mkSurfaceTexture (st_texName s) (st_listener s)
                           (st_queued s ++ Ts) (st_transform s)) /\
  gl_textures (world (produce_frames o Ts wd)) = gl_textures wd /\
  trace (produce_frames o Ts wd) = posts_of (st_listener s) Ts.
Proof.
  revert wd s. induction Ts as [|T Ts IH]; intros wd s Hs.
  - cbn [produce_frames]. rewrite app_nil_r. destruct s as [tn l q tr].
    unfold posts_of. cbn. destruct l; auto.
  - cbn [produce_frames]. rewrite bind_run, world_run, trace_run.
    rewrite produce_frame_run, Hs, world_run, trace_run.
    set (s1 := mkSurfaceTexture (st_texName s) (st_listener s)
                                (st_queued s ++ [T]) (st_transform s)).
    set (wd1 := mkWorld _ _).
    assert (Hs1 : heap_load (java_heap wd1) o = Some s1)
      by (eapply heap_load_store_same, Hs).
    destruct (IH wd1 s1 Hs1) as (Hh & Hg & Ht).
    rewrite Hh, Hg, Ht. cbn [s1 st_texName st_listener st_queued st_transform].
    rewrite <- app_assoc. repeat split.
    unfold posts_of. destruct (st_listener s); reflexivity.
Qed.

(** ** The shader sources *)

(** the names the C++ side hands to the program are declared in the GLSL
    sources, with the qualifier and type the calls need *)
Lemma shader_sources_declare_names :
  index 0 "uniform mat4 uSTMatrix;" vertexShader <> None /\
  index 0 "uniform samplerExternalOES sTexture;" fragmentShader <> None /\
  Forall (fun a => index 0 ("attribute vec4 " ++ a ++ ";")%string vertexShader
                   <> None) attributes.
Proof.
  split; [vm_compute; discriminate|].
  split; [vm_compute; discriminate|].
  repeat constructor; vm_compute; discriminate.
Qed.

(** ** Traversals, exactly *)

Lemma traversal_later_exact tk sc wd node mat s :
  paintNode sc = Some node -> node_ok node -> material node = Some mat ->
  obj node = surfaceTexture (item sc) ->
  heap_load (java_heap wd) (obj node) = Some s ->
  let r := traversal tk sc wd in
  let s2 := latch (mkSurfaceTexture (st_texName s) (st_listener s)
                     (st_queued s ++ tick_frames tk) (st_transform s)) in
  value r =
    mkScene (with_bounds (item sc) (bounds tk))
      (Some (with_transform (with_geometry node (quad_of (bounds tk))) mat
               (st_transform s2)
               (GetFloatArrayRegion (st_transform s2) 0 16
                                    (uSTMatrix (state mat))))) /\
  gl_textures (world r) = gl_textures wd /\
  heap_load (java_heap (world r)) (obj node) = Some s2 /\
  trace r = posts_of (st_listener s) (frames_before_sync tk)
            ++ geometry_calls (bounds tk)
            ++ posts_of (st_listener s) (frames_before_render tk)
            ++ [UpdateTexImage (obj node); GetTransformMatrix (obj node)].
Proof.
  intros Hpn Hnode Hmat Hobj Hs. cbn zeta.
  destruct sc as [it pn]. cbn [paintNode item] in *. subst pn.
  unfold surfaceTexture in Hobj.
  destruct (produce_frames_same (mSurfaceTexture it) (frames_before_sync tk)
              wd s) as (Hh1 & Hg1 & Ht1); [now rewrite <- Hobj|].
  set (r1 := produce_frames (mSurfaceTexture it) (frames_before_sync tk) wd)
    in *.
  destruct (produce_frames_same (mSurfaceTexture it)
              (frames_before_render tk) (world r1) _ Hh1) as (Hh2 & Hg2 & Ht2).
  cbn [st_texName st_listener st_queued st_transform] in Hh2, Ht2.
  set (r2 := produce_frames (mSurfaceTexture it) (frames_before_render tk)
                            (world r1)) in *.
  rewrite <- Hobj in Hh2. rewrite <- app_assoc in Hh2.
  rewrite (traversal_old_node tk it node mat wd _ Hnode Hmat Hh2).
  fold r1 r2. rewrite value_run, world_run, trace_run.
  cbn [gl_textures java_heap]. rewrite Hg2, Hg1, Ht1, Ht2.
  unfold tick_frames.
  split; [reflexivity|]. split; [reflexivity|].
  split; [eapply heap_load_store_same, Hh2|].
  now rewrite app_nil_r.
Qed.

Lemma traversal_first_exact tk it wd :
  mSurfaceTexture it = None ->
  let r := traversal tk (mkScene it None) wd in
  let id := fresh_name (gl_textures wd) in
  let st := Some (length (java_heap wd)) in
  let s2 := latch (mkSurfaceTexture id (Some (this_ptr it))
                     (frames_before_render tk) QMatrix4x4_identity) in
  value r =
    mkScene (mkItem (this_ptr it) (item_flags it) (bounds tk) id st)
      (Some (with_transform
               (with_geometry (fresh_node st id) (quad_of (bounds tk)))
               (mkMaterial (mkState QMatrix4x4_identity id)
                           (Z.lor 0 Blending))
               (st_transform s2)
               (GetFloatArrayRegion (st_transform s2) 0 16
                                    QMatrix4x4_identity))) /\
  gl_textures (world r) = id :: gl_textures wd /\
  heap_load (java_heap (world r)) st = Some s2 /\
  trace r = creation_calls (this_ptr it) st id
            ++ geometry_calls (bounds tk)
            ++ posts_of (Some (this_ptr it)) (frames_before_render tk)
            ++ [UpdateTexImage st; GetTransformMatrix st].
Proof.
  intros Hnull. cbn zeta.
  set (id := fresh_name (gl_textures wd)).
  set (st := Some (length (java_heap wd))).
  set (wd1 := mkWorld (id :: gl_textures wd)
                (java_heap wd ++
                 [mkSurfaceTexture id (Some (this_ptr it)) []
                                   QMatrix4x4_identity])).
  assert (Hs1 : heap_load (java_heap wd1) st = Some
                  (mkSurfaceTexture id (Some (this_ptr it)) []
                                    QMatrix4x4_identity))
    by apply heap_load_last.
  destruct (produce_frames_same st (frames_before_render tk) wd1 _ Hs1)
    as (Hh2 & Hg2 & Ht2).
  cbn [st_texName st_listener st_queued st_transform app] in Hh2, Ht2.
  rewrite (traversal_no_node tk it wd _ Hnull Hh2).
  fold id st wd1. rewrite value_run, world_run, trace_run.
  cbn [gl_textures java_heap]. rewrite Hg2, Ht2.
  split; [reflexivity|]. split; [reflexivity|].
  split; [eapply heap_load_store_same, Hh2|].
  cbn [app]. now rewrite <- app_assoc.
Qed.

Lemma fresh_name_unused used : ~ In (fresh_name used) used.
Proof.
  unfold fresh_name. intros Hin.
  assert (H : forall n, In n used -> n <= fold_right Z.max 0 used).
  { clear. induction used as [|m used IH]; intros n [].
    - subst. cbn [fold_right]. lia.
    - cbn [fold_right]. specialize (IH n H). lia. }
  specialize (H _ Hin). lia.
Qed.

(** ** What item, node and producer share *)

Lemma first_traversal_agrees tk ptr id0 wd :
  let r := traversal tk (construct ptr id0) wd in
  scene_agrees (value r) (world r) /\
  this_ptr (item (value r)) = ptr /\
  surfaceTexture (item (value r)) = Some (length (java_heap wd)) /\
  mTextureId (item (value r)) = fresh_name (gl_textures wd) /\
  gl_textures (world r) = fresh_name (gl_textures wd) :: gl_textures wd.
Proof.
  cbn zeta. unfold construct, QSurfaceTexture_ctor.
  destruct (traversal_first_exact tk
              (mkItem ptr ItemHasContents (QRectF_of 0 0 0 0) id0 None) wd
              eq_refl) as (Hv & Hg & Hh & _).
  cbn [this_ptr item_flags] in Hv, Hh.
  rewrite Hv. cbn [item this_ptr surfaceTexture mSurfaceTexture mTextureId].
  split; [|auto].
  unfold scene_agrees.
  cbn [paintNode item surfaceTexture mSurfaceTexture mTextureId this_ptr].
  eexists _, _, _. split; [reflexivity|]. split; [reflexivity|].
  split; [exact Hh|].
  destruct (latch_fields (mkSurfaceTexture (fresh_name (gl_textures wd))
                            (Some ptr) (frames_before_render tk)
                            QMatrix4x4_identity)) as (H1 & H2 & H3 & _).
  rewrite H1, H2, H3, Hg.
  repeat split; try reflexivity; [now left | apply fresh_name_nonzero].
Qed.

Lemma later_traversal_agrees tk sc wd :
  scene_ok sc wd -> scene_agrees sc wd ->
  let r := traversal tk sc wd in
  scene_agrees (value r) (world r) /\
  this_ptr (item (value r)) = this_ptr (item sc) /\
  surfaceTexture (item (value r)) = surfaceTexture (item sc) /\
  mTextureId (item (value r)) = mTextureId (item sc) /\
  gl_textures (world r) = gl_textures wd.
Proof.
  intros Hok (node & mat & s & Hpn & Hmat & Hs & Hobj & Hst & Hid & Htid
              & Hname & Hl & Hq & Hin & Hnz). cbn zeta.
  unfold scene_ok in Hok. rewrite Hpn in Hok. destruct Hok as (Hnode & _).
  rewrite <- Hobj in Hs.
  destruct (traversal_later_exact tk sc wd node mat s Hpn Hnode Hmat Hobj Hs)
    as (Hv & Hg & Hh & _).
  rewrite Hv, Hg.
  cbn [item with_bounds this_ptr surfaceTexture mSurfaceTexture mTextureId].
  split; [|auto].
  unfold scene_agrees. rewrite ?Hg.
  cbn [paintNode item with_bounds surfaceTexture mSurfaceTexture mTextureId
       this_ptr].
  eexists _, _, _. split; [reflexivity|]. split; [reflexivity|].
  unfold surfaceTexture in Hobj. rewrite <- Hobj.
  split; [exact Hh|].
  destruct (latch_fields (mkSurfaceTexture (st_texName s) (st_listener s)
                            (st_queued s ++ tick_frames tk)
                            (st_transform s))) as (H1 & H2 & H3 & _).
  rewrite H1, H2, H3.
  cbn [with_transform with_geometry obj m_surfaceTexture m_textureId state
       textureId st_texName st_listener].
  unfold surfaceTexture in Hst.
  repeat split; auto; congruence.
Qed.

Lemma traversals_agree tks sc wd :
  scene_ok sc wd -> scene_agrees sc wd ->
  let r := traversals tks sc wd in
  scene_agrees (value r) (world r) /\
  this_ptr (item (value r)) = this_ptr (item sc) /\
  surfaceTexture (item (value r)) = surfaceTexture (item sc) /\
  mTextureId (item (value r)) = mTextureId (item sc) /\
  gl_textures (world r) = gl_textures wd.
Proof.
  revert sc wd. induction tks as [|tk tks IH]; intros sc wd Hok Hag.
  - cbn. auto.
  - cbn zeta. rewrite traversals_cons, value_run, world_run.
    destruct (later_traversal_agrees tk sc wd Hok Hag)
      as (Hag1 & Hp1 & Hs1 & Hi1 & Hg1).
    destruct (IH _ _ (traversal_ok tk sc wd Hok) Hag1)
      as (Hag2 & Hp2 & Hs2 & Hi2 & Hg2).
    repeat split; congruence.
Qed.

(** X8: after any run of one or more traversals from the constructor,
    the item, its node, the material and the Java SurfaceTexture name
    one producer handle and one texture; that texture is non-zero and
    among the live GL names; the listener carries the item's address;
    no frame is left queued.  Handle, texture and address are those of
    the first traversal. *)
Theorem handles_agree_after_traversals
    (ptr : jlong) (mTextureId0 : GLuint) (tk : Tick) (tks : list Tick)
    (wd : World) :
  let r := traversals (tk :: tks) (construct ptr mTextureId0) wd in
  scene_agrees (value r) (world r) /\
  this_ptr (item (value r)) = ptr /\
  surfaceTexture (item (value r)) = Some (length (java_heap wd)) /\
  mTextureId (item (value r)) = fresh_name (gl_textures wd) /\
  gl_textures (world r) = fresh_name (gl_textures wd) :: gl_textures wd.
Proof.
  cbn zeta. rewrite traversals_cons, value_run, world_run.
  destruct (first_traversal_agrees tk ptr mTextureId0 wd)
    as (Hag1 & Hp1 & Hs1 & Hi1 & Hg1).
  pose proof (traversal_ok tk _ wd (construct_ok ptr mTextureId0 wd)) as Hok1.
  destruct (traversals_agree tks _ _ Hok1 Hag1)
    as (Hag2 & Hp2 & Hs2 & Hi2 & Hg2).
  repeat split; congruence.
Qed.

(** ** The newest frame wins *)

Lemma last_Forall {A : Type} (P : A -> Prop) (l : list A) (d : A) :
  Forall P l -> P d -> P (last l d).
Proof.
  intros Hl. revert d. induction Hl as [|x l Hx _ IH]; intros d Hd;
    [exact Hd|].
  rewrite last_cons. now apply IH.
Qed.

Lemma later_traversal_synced tk sc wd T :
  scene_ok sc wd -> scene_agrees sc wd -> scene_synced sc wd T ->
  Forall (fun F => length F = 16%nat) (tick_frames tk) ->
  scene_synced (value (traversal tk sc wd)) (world (traversal tk sc wd))
               (last (tick_frames tk) T).
Proof.
  intros Hok (node & mat & s & Hpn & Hmat & Hs & Hobj & _ & _ & _
              & _ & _ & Hq & _)
         (HT & node' & mat' & s' & Hpn' & Hmat' & Hs' & Hm & Ha & Hst) Hfs.
  assert (node' = node) by congruence. subst node'.
  assert (mat' = mat) by congruence. subst mat'.
  assert (s' = s) by congruence. subst s'. clear Hpn' Hmat' Hs'.
  unfold scene_ok in Hok. rewrite Hpn in Hok. destruct Hok as (Hnode & _).
  rewrite <- Hobj in Hs.
  destruct (traversal_later_exact tk sc wd node mat s Hpn Hnode Hmat Hobj Hs)
    as (Hv & _ & Hh & _).
  destruct (latch_fields (mkSurfaceTexture (st_texName s) (st_listener s)
                            (st_queued s ++ tick_frames tk)
                            (st_transform s))) as (_ & _ & _ & Ht).
  cbn [st_queued st_transform] in Ht.
  rewrite Hq, Hst in Ht, Hv, Hh. cbn [app] in Ht, Hv, Hh.
  rewrite Ht in Hv.
  assert (HT' : length (last (tick_frames tk) T) = 16%nat)
    by (apply (last_Forall (fun F => length F = 16%nat)); assumption).
  split; [exact HT'|].
  rewrite Hv. unfold surfaceTexture in *.
  cbn [paintNode item with_bounds mSurfaceTexture].
  eexists _, _, _. split; [reflexivity|]. split; [reflexivity|].
  rewrite <- Hobj. split; [exact Hh|].
  cbn [state uSTMatrix with_transform m_uSTMatrixArray].
  repeat split;
    first [exact Ht | apply GetFloatArrayRegion_all; congruence].
Qed.

Lemma first_traversal_synced tk ptr id0 wd :
  Forall (fun F => length F = 16%nat) (frames_before_render tk) ->
  scene_synced (value (traversal tk (construct ptr id0) wd))
               (world (traversal tk (construct ptr id0) wd))
               (last (frames_before_render tk) QMatrix4x4_identity).
Proof.
  intros Hfs. unfold construct, QSurfaceTexture_ctor.
  destruct (traversal_first_exact tk
              (mkItem ptr ItemHasContents (QRectF_of 0 0 0 0) id0 None) wd
              eq_refl) as (Hv & _ & Hh & _).
  cbn [this_ptr item_flags] in Hv, Hh.
  destruct (latch_fields (mkSurfaceTexture (fresh_name (gl_textures wd))
                            (Some ptr) (frames_before_render tk)
                            QMatrix4x4_identity)) as (_ & _ & _ & Ht).
  cbn [st_queued st_transform] in Ht. rewrite Ht in Hv.
  assert (HT' : length (last (frames_before_render tk) QMatrix4x4_identity)
                = 16%nat)
    by (apply (last_Forall (fun F => length F = 16%nat));
        [assumption | reflexivity]).
  split; [exact HT'|].
  rewrite Hv. unfold surfaceTexture.
  cbn [paintNode item mSurfaceTexture].
  eexists _, _, _. split; [reflexivity|]. split; [reflexivity|].
  split; [exact Hh|].
  cbn [state uSTMatrix with_transform m_uSTMatrixArray].
  repeat split;
    first [exact Ht
          | apply GetFloatArrayRegion_all; [exact HT' | reflexivity]].
Qed.

Lemma traversals_synced tks sc wd T :
  scene_ok sc wd -> scene_agrees sc wd -> scene_synced sc wd T ->
  Forall (fun F => length F = 16%nat) (flat_map tick_frames tks) ->
  scene_synced (value (traversals tks sc wd)) (world (traversals tks sc wd))
               (last (flat_map tick_frames tks) T).
Proof.
  revert sc wd T. induction tks as [|tk tks IH]; intros sc wd T Hok Hag Hsy Hfs.
  - exact Hsy.
  - cbn [flat_map] in Hfs |- *. apply Forall_app in Hfs as [Hf1 Hf2].
    rewrite traversals_cons, value_run, world_run, last_app_default.
    apply IH; auto.
    + now apply traversal_ok.
    + now apply later_traversal_agrees.
    + now apply later_traversal_synced.
Qed.

(** X9: when every frame the producer delivers carries sixteen floats,
    then after any run of one or more traversals the material state,
    the node's scratch array and the SurfaceTexture all hold the
    transform of the most recent frame that reached the SurfaceTexture,
    the identity when none did; frames superseded before a traversal
    leave no mark. *)
Theorem newest_frame_is_published
    (ptr : jlong) (mTextureId0 : GLuint) (tk : Tick) (tks : list Tick)
    (wd : World) :
  Forall (fun F => length F = 16%nat) (run_frames (tk :: tks)) ->
  let r := traversals (tk :: tks) (construct ptr mTextureId0) wd in
  scene_synced (value r) (world r)
               (last (run_frames (tk :: tks)) QMatrix4x4_identity).
Proof.
  intros Hfs. cbn zeta. cbn [run_frames] in *.
  apply Forall_app in Hfs as [Hf1 Hf2].
  rewrite traversals_cons, value_run, world_run, last_app_default.
  pose proof (construct_ok ptr mTextureId0 wd) as Hok0.
  apply traversals_synced; auto.
  - now apply traversal_ok.
  - apply first_traversal_agrees.
  - now apply first_traversal_synced.
Qed.

Lemma newest_frame_is_published_witness :
  let r := traversals sample_ticks (construct 4096 0) empty_world in
  scene_synced (value r) (world r)
               (last (run_frames sample_ticks) QMatrix4x4_identity).
Proof.
  apply (newest_frame_is_published 4096 0
           (mkTick [sample_transform] (QRectF_of 0 0 640 480)
                   [QMatrix4x4_identity])
           [mkTick [QMatrix4x4_identity; sample_transform]
                   (QRectF_of 0 0 320 240) []]
           empty_world).
  cbn. repeat constructor.
Defined.

(** ** Every traversal pulls and publishes *)

Lemma traversals_nil sc wd : traversals [] sc wd = (sc, wd, []).
Proof. reflexivity. Qed.

(** the state a traversal leaves, at any point of a run in which every
    frame carries sixteen floats *)
Lemma run_then_traversal_synced ptr id0 tks tk wd :
  Forall (fun F => length F = 16%nat) (run_frames (tks ++ [tk])) ->
  let before := traversals tks (construct ptr id0) wd in
  let r := traversal tk (value before) (world before) in
  scene_synced (value r) (world r)
               (last (run_frames (tks ++ [tk])) QMatrix4x4_identity).
Proof.
  intros Hfs. cbn zeta. destruct tks as [|t rest].
  - cbn [app run_frames flat_map] in *. rewrite app_nil_r in *.
    rewrite traversals_nil, value_run, world_run.
    now apply first_traversal_synced.
  - cbn [app run_frames] in *. rewrite flat_map_app in *.
    cbn [flat_map] in *. rewrite app_nil_r in *.
    apply Forall_app in Hfs as [Hf1 Hf2].
    apply Forall_app in Hf2 as [Hf2 Hf3].
    rewrite !last_app_default.
    rewrite traversals_cons, value_run, world_run.
    pose proof (construct_ok ptr id0 wd) as Hok0.
    pose proof (traversal_ok t _ _ Hok0) as Hok1.
    destruct (first_traversal_agrees t ptr id0 wd) as [Hag1 _].
    cbn zeta in Hag1.
    pose proof (first_traversal_synced t ptr id0 wd Hf1) as Hsy1.
    apply later_traversal_synced; auto.
    + now apply traversals_ok.
    + now apply traversals_agree.
    + now apply traversals_synced.
Qed.

(** C1: every traversal of a constructed item, however many came before
    (each of them pulled once) and whether or not the producer delivered
    a frame since the last one, ends with [preprocess] calling
    [updateTexImage] and then [getTransformMatrix] on the item's
    SurfaceTexture; no other pull or fetch happens in the traversal.
    With frames of sixteen floats, the matrix of the material state and
    the array the node keeps are overwritten with the transform just
    fetched, that of the newest frame to have reached the SurfaceTexture
    (the identity when none has). *)
Theorem every_traversal_pulls_and_publishes
    (ptr : jlong) (mTextureId0 : GLuint) (tks : list Tick) (tk : Tick)
    (wd : World)
    (Hframes : Forall (fun F => length F = 16%nat) (run_frames (tks ++ [tk]))) :
  let before := traversals tks (construct ptr mTextureId0) wd in
  let r := traversal tk (value before) (world before) in
  let o := surfaceTexture (item (value r)) in
  count is_pull (trace before) = length tks /\
  exists pre s node mat,
    trace r = pre ++ [UpdateTexImage o; GetTransformMatrix o] /\
    count is_pull pre = 0%nat /\
    count is_fetch pre = 0%nat /\
    heap_load (java_heap (world r)) o = Some s /\
    paintNode (value r) = Some node /\
    material node = Some mat /\
    length (st_transform s) = 16%nat /\
    st_transform s = last (run_frames (tks ++ [tk])) QMatrix4x4_identity /\
    m_uSTMatrixArray node = st_transform s /\
    uSTMatrix (state mat) = st_transform s.
Proof.
  intros before r o.
  split; [apply one_pull_per_traversal, construct_ok|].
  assert (Hok : scene_ok (value before) (world before))
    by apply traversals_ok, construct_ok.
  destruct (traversal_run tk _ _ Hok)
    as (inv1 & inv2 & s & node & mat & H1 & H2 & Ht & Hs & Hn & Hm & _).
  fold r in Ht, Hs, Hn. cbn zeta in Ht, Hs.
  destruct (run_then_traversal_synced ptr mTextureId0 tks tk wd Hframes)
    as (HT & node' & mat' & s' & Hn' & Hm' & Hs' & Hu & Ha & Hst).
  fold before in Hn', Hs'. fold r in Hn', Hs'.
  unfold surfaceTexture in Hs'.
  assert (node' = node) by congruence. subst node'.
  assert (mat' = mat) by congruence. subst mat'.
  assert (s' = s) by congruence. subst s'.
  exists (inv1 ++ first_time_calls (value before) (world before)
               ++ geometry_calls (bounds tk) ++ inv2), s, node, mat.
  split. { unfold o, surfaceTexture. rewrite Ht, <- !app_assoc. reflexivity. }
  assert (Hcount : forall p, (forall c, is_invoke c = true -> p c = false) ->
            count p (first_time_calls (value before) (world before)) = 0%nat ->
            count p (geometry_calls (bounds tk)) = 0%nat ->
            count p (inv1 ++ first_time_calls (value before) (world before)
                          ++ geometry_calls (bounds tk) ++ inv2) = 0%nat).
  { intros p Hp Hc Hg. rewrite !count_app, Hc, Hg.
    now rewrite !(count_only_invokes p) by assumption. }
  split.
  { apply Hcount; [intros []; cbn; congruence | | reflexivity].
    unfold first_time_calls. destruct (paintNode (value before)); reflexivity. }
  split.
  { apply Hcount; [intros []; cbn; congruence | | reflexivity].
    unfold first_time_calls. destruct (paintNode (value before)); reflexivity. }
  split; [exact Hs|]. split; [exact Hn|]. split; [exact Hm|].
  split; [congruence|]. split; [exact Hst|]. split; congruence.
Qed.

Lemma every_traversal_pulls_and_publishes_witness :
  let tks := [mkTick [sample_transform] (QRectF_of 0 0 640 480)
                     [QMatrix4x4_identity]] in
  let tk := mkTick [QMatrix4x4_identity; sample_transform]
                   (QRectF_of 0 0 320 240) [] in
  let before := traversals tks (construct 4096 0) empty_world in
  let r := traversal tk (value before) (world before) in
  let o := surfaceTexture (item (value r)) in
  Forall (fun F => length F = 16%nat) (run_frames (tks ++ [tk])) /\
  count is_pull (trace before) = 1%nat /\
  exists pre s node mat,
    trace r = pre ++ [UpdateTexImage o; GetTransformMatrix o] /\
    count is_pull pre = 0%nat /\
    count is_fetch pre = 0%nat /\
    heap_load (java_heap (world r)) o = Some s /\
    paintNode (value r) = Some node /\
    material node = Some mat /\
    length (st_transform s) = 16%nat /\
    st_transform s = sample_transform /\
    m_uSTMatrixArray node = st_transform s /\
    uSTMatrix (state mat) = st_transform s.
Proof.
  cbn zeta.
  assert (Hfs : Forall (fun F => length F = 16%nat)
                  (run_frames
                     ([mkTick [sample_transform] (QRectF_of 0 0 640 480)
                              [QMatrix4x4_identity]]
                      ++ [mkTick [QMatrix4x4_identity; sample_transform]
                                 (QRectF_of 0 0 320 240) []])))
    by (cbn; repeat constructor).
  split; [exact Hfs|].
  exact (every_traversal_pulls_and_publishes 4096 0
           [mkTick [sample_transform] (QRectF_of 0 0 640 480)
                   [QMatrix4x4_identity]]
           (mkTick [QMatrix4x4_identity; sample_transform]
                   (QRectF_of 0 0 320 240) [])
           empty_world Hfs).
Defined.

(** ** Whole runs: what is left behind *)

Lemma destroy_world sc wd :
  mTextureId (item sc) <> 0 ->
  world (destroy sc wd) =
  mkWorld (filter (fun n => negb (n =? mTextureId (item sc))) (gl_textures wd))
          (java_heap wd).
Proof.
  intros Hid. unfold destroy, QSurfaceTexture_dtor.
  destruct (Z.eqb_spec (mTextureId (item sc)) 0) as [|_]; [contradiction|].
  destruct (paintNode sc); reflexivity.
Qed.

Lemma filter_other_names (id : GLuint) (names : list GLuint) :
  ~ In id names -> filter (fun n => negb (n =? id)) names = names.
Proof.
  induction names as [|n names IH]; intros Hnot; [reflexivity|].
  cbn [filter]. destruct (Z.eqb_spec n id) as [->|_].
  - exfalso. apply Hnot. now left.
  - cbn [negb]. rewrite IH; [reflexivity|]. intros H. apply Hnot. now right.
Qed.

Lemma lifecycle_run ptr id0 tks wd :
  lifecycle ptr id0 tks wd =
  (tt,
   world (destroy (value (traversals tks (construct ptr id0) wd))
                  (world (traversals tks (construct ptr id0) wd))),
   trace (traversals tks (construct ptr id0) wd) ++
   trace (destroy (value (traversals tks (construct ptr id0) wd))
                  (world (traversals tks (construct ptr id0) wd)))).
Proof.
  unfold lifecycle. rewrite bind_run. f_equal. f_equal.
  now destruct (value (destroy _ _)).
Qed.

Lemma run_end_state ptr id0 tk tks wd :
  let r := traversals (tk :: tks) (construct ptr id0) wd in
  mTextureId (item (value r)) = fresh_name (gl_textures wd) /\
  gl_textures (world r) = fresh_name (gl_textures wd) :: gl_textures wd /\
  exists s, heap_load (java_heap (world r)) (Some (length (java_heap wd)))
            = Some s /\
            st_listener s = Some ptr.
Proof.
  cbn zeta. rewrite traversals_cons, value_run, world_run.
  destruct (first_traversal_agrees tk ptr id0 wd)
    as (Hag1 & Hp1 & Hs1 & Hi1 & Hg1).
  pose proof (traversal_ok tk _ wd (construct_ok ptr id0 wd)) as Hok1.
  destruct (traversals_agree tks _ _ Hok1 Hag1)
    as ((node & mat & s & _ & _ & Hs & _ & _ & _ & _ & _ & Hl & _)
        & Hp2 & Hs2 & Hi2 & Hg2).
  cbn zeta in *. rewrite Hs2, Hs1 in Hs. rewrite Hp2, Hp1 in Hl.
  split; [congruence|]. split; [congruence|]. eauto.
Qed.

(** X10: a run of construct, one or more traversals, destroy leaves the
    GL context with exactly the texture names it had before: the one
    texture the item generated is the one its destructor deletes. *)
Theorem lifecycle_restores_textures
    (ptr : jlong) (mTextureId0 : GLuint) (tk : Tick) (tks : list Tick)
    (wd : World) :
  gl_textures (world (lifecycle ptr mTextureId0 (tk :: tks) wd)) =
  gl_textures wd.
Proof.
  rewrite lifecycle_run, world_run.
  destruct (run_end_state ptr mTextureId0 tk tks wd) as (Hid & Hgl & _).
  cbn zeta in Hid, Hgl.
  rewrite destroy_world by (rewrite Hid; apply fresh_name_nonzero).
  cbn [gl_textures]. rewrite Hgl, Hid. cbn [filter].
  rewrite Z.eqb_refl. cbn [negb].
  apply filter_other_names, fresh_name_unused.
Qed.

Lemma quiet_global_release : quiet is_global_release.
Proof. quiet_class. Qed.
Lemma quiet_local_create : quiet is_local_create.
Proof. quiet_class. Qed.
Lemma quiet_local_release : quiet is_local_release.
Proof. quiet_class. Qed.
Lemma quiet_listener_set : quiet is_listener_set.
Proof. quiet_class. Qed.

#[local] Hint Resolve quiet_global_release quiet_local_create
  quiet_local_release quiet_listener_set : quiet.

Lemma run_filter_quiet p ptr id0 tk tks wd :
  quiet p ->
  filter p (trace (lifecycle ptr id0 (tk :: tks) wd)) =
  filter p (creation_calls ptr (Some (length (java_heap wd)))
                           (fresh_name (gl_textures wd)))
  ++ filter p (teardown_calls (fresh_name (gl_textures wd))).
Proof.
  intros Hp.
  destruct (run_with_a_traversal ptr id0 tk tks wd)
    as (_ & Hrun & Hfirst & Hlater & _).
  now rewrite Hrun, !filter_app, (Hfirst p Hp), (Hlater p Hp), app_nil_r.
Qed.

(** X11: in every run, with or without traversals, the JNI references
    balance: as many global references are deleted as were taken (the
    scratch array's, one or none), and as many local references are
    deleted as float arrays were created. *)
Theorem lifecycle_balances_references
    (ptr : jlong) (mTextureId0 : GLuint) (tks : list Tick) (wd : World) :
  let t := trace (lifecycle ptr mTextureId0 tks wd) in
  count is_node_create t = count is_global_release t /\
  count is_local_create t = count is_local_release t /\
  (count is_node_create t <= 1)%nat.
Proof.
  cbn zeta. destruct tks as [|tk tks].
  - rewrite lifecycle_run, trace_run.
    unfold traversals, construct, destroy, QSurfaceTexture_dtor,
      QSurfaceTexture_ctor.
    cbn [ret value world trace fst snd item paintNode mTextureId app].
    destruct (mTextureId0 =? 0); cbn; repeat split; lia.
  - unfold count.
    rewrite !run_filter_quiet
      by auto using quiet_node_create with quiet.
    cbn. repeat split; lia.
Qed.

(** X12: teardown never takes the listener off the SurfaceTexture: the
    run sets it once, and after the destructor the Java object still
    holds the address of the destroyed item, so that a frame landing
    then still posts [update] to that address. *)
Theorem listener_outlives_item
    (ptr : jlong) (mTextureId0 : GLuint) (tk : Tick) (tks : list Tick)
    (wd : World) (T : QMatrix4x4) :
  let run := lifecycle ptr mTextureId0 (tk :: tks) wd in
  let st := Some (length (java_heap wd)) in
  filter is_listener_set (trace run) = [SetOnFrameAvailableListener st ptr] /\
  (exists s, heap_load (java_heap (world run)) st = Some s /\
             st_listener s = Some ptr) /\
  trace (produce_frame st T (world run)) = [update_post ptr].
Proof.
  cbn zeta. split; [now rewrite run_filter_quiet by auto with quiet|].
  rewrite lifecycle_run, world_run.
  destruct (run_end_state ptr mTextureId0 tk tks wd)
    as (Hid & _ & s & Hs & Hl).
  cbn zeta in Hs, Hl, Hid.
  rewrite destroy_world by (rewrite Hid; apply fresh_name_nonzero).
  cbn [java_heap]. split; [eauto|].
  rewrite produce_frame_run. cbn [java_heap]. rewrite Hs, trace_run, Hl.
  reflexivity.
Qed.

(** ** Notifications *)

Lemma filter_posts (ptr : jlong) (n : nat) :
  filter is_invoke (repeat (update_post ptr) n) = repeat (update_post ptr) n.
Proof. induction n as [|n IH]; [reflexivity|]. cbn. now rewrite IH. Qed.

Lemma later_traversal_posts tk sc wd :
  scene_ok sc wd -> scene_agrees sc wd ->
  filter is_invoke (trace (traversal tk sc wd)) =
  repeat (update_post (this_ptr (item sc))) (length (tick_frames tk)).
Proof.
  intros Hok (node & mat & s & Hpn & Hmat & Hs & Hobj & _ & _ & _
              & _ & Hl & _).
  unfold scene_ok in Hok. rewrite Hpn in Hok. destruct Hok as (Hnode & _).
  rewrite <- Hobj in Hs.
  destruct (traversal_later_exact tk sc wd node mat s Hpn Hnode Hmat Hobj Hs)
    as (_ & _ & _ & Ht).
  rewrite Ht, Hl. unfold posts_of, tick_frames.
  rewrite !filter_app, !filter_posts, length_app, repeat_app.
  cbn. now rewrite app_nil_r.
Qed.

Lemma traversals_posts tks sc wd :
  scene_ok sc wd -> scene_agrees sc wd ->
  filter is_invoke (trace (traversals tks sc wd)) =
  repeat (update_post (this_ptr (item sc)))
         (length (flat_map tick_frames tks)).
Proof.
  revert sc wd. induction tks as [|tk tks IH]; intros sc wd Hok Hag;
    [reflexivity|].
  rewrite traversals_cons, trace_run, filter_app.
  destruct (later_traversal_agrees tk sc wd Hok Hag) as (Hag1 & Hp1 & _).
  rewrite (later_traversal_posts tk sc wd Hok Hag).
  rewrite (IH _ _ (traversal_ok tk sc wd Hok) Hag1), Hp1.
  cbn [flat_map]. now rewrite length_app, repeat_app.
Qed.

(** X13: the notifications are not coalesced by this code: over a run of
    traversals, every frame that reaches the SurfaceTexture posts one
    queued [update] call, all of them to the item's own address, and
    nothing else is ever posted. *)
Theorem one_post_per_frame
    (ptr : jlong) (mTextureId0 : GLuint) (tk : Tick) (tks : list Tick)
    (wd : World) :
  filter is_invoke
    (trace (traversals (tk :: tks) (construct ptr mTextureId0) wd)) =
  repeat (update_post ptr) (length (run_frames (tk :: tks))).
Proof.
  rewrite traversals_cons, trace_run, filter_app.
  destruct (first_traversal_agrees tk ptr mTextureId0 wd)
    as (Hag1 & Hp1 & _).
  pose proof (traversal_ok tk _ wd (construct_ok ptr mTextureId0 wd)) as Hok1.
  rewrite (traversals_posts tks _ _ Hok1 Hag1), Hp1.
  unfold construct, QSurfaceTexture_ctor.
  destruct (traversal_first_exact tk
              (mkItem ptr ItemHasContents (QRectF_of 0 0 0 0) mTextureId0 None)
              wd eq_refl) as (_ & _ & _ & Ht).
  cbn [this_ptr] in Ht. rewrite Ht. unfold posts_of.
  rewrite !filter_app, filter_posts.
  cbn [run_frames]. rewrite length_app, repeat_app.
  cbn. now rewrite app_nil_r.
Qed.

(** X14: once the node exists, a traversal makes no GL call, creates no
    object and emits no signal: every call of every later traversal is
    a queued post, the geometry write, the dirty mark, the pull or the
    fetch. *)
Theorem later_traversals_are_steady
    (ptr : jlong) (mTextureId0 : GLuint) (tk : Tick) (tks : list Tick)
    (wd : World) :
  let first := traversal tk (construct ptr mTextureId0) wd in
  let later := traversals tks (value first) (world first) in
  Forall (fun c => is_steady_call c = true) (trace later).
Proof.
  cbn zeta.
  pose proof (traversal_ok tk _ wd (construct_ok ptr mTextureId0 wd)) as Hok.
  pose proof (traversal_keeps_node tk _ wd (construct_ok ptr mTextureId0 wd))
    as Hn.
  revert Hok Hn.
  generalize (value (traversal tk (construct ptr mTextureId0) wd)).
  generalize (world (traversal tk (construct ptr mTextureId0) wd)).
  intros wd1 sc. revert sc wd1.
  induction tks as [|t tks IH]; intros sc wd1 Hok Hn; [constructor|].
  rewrite traversals_cons, trace_run. apply Forall_app. split.
  - destruct (traversal_run t sc wd1 Hok)
      as (inv1 & inv2 & _ & _ & _ & H1 & H2 & Ht & _).
    cbn zeta in Ht. rewrite Ht. unfold first_time_calls.
    destruct (paintNode sc); [|congruence].
    assert (Hinv : forall l, Forall (fun c => is_invoke c = true) l ->
                             Forall (fun c => is_steady_call c = true) l).
    { intros l. apply Forall_impl. intros c Hc. unfold is_steady_call.
      now rewrite Hc. }
    repeat (apply Forall_app; split); auto; repeat constructor.
  - apply IH; [now apply traversal_ok | now apply traversal_keeps_node].
Qed.

(** ** The flip and the geometry *)

Lemma qreal_sub_zero (a : qreal) : (a - S754_zero false)%qreal = a.
Proof. destruct a as [[|]|[|]| |s m e]; reflexivity. Qed.

(** X15: for a rectangle with its top at 0 and a finite non-zero height,
    the vertical flip moves the origin to the old bottom edge and negates
    the height, exactly.  Applied twice it gives back the rectangle with
    its height rounded to a [float], the old top of the second flip
    having waited in the [float] temporary: the flip undoes itself
    exactly when the height is a [float] value. *)
Theorem flip_vertical_twice (x0 w0 : qreal) (s : bool) (m : positive) (e : Z) :
  let h0 := S754_finite s m e in
  let r := mkRectF x0 (qreal_of_Z 0) w0 h0 in
  flip_vertical r = mkRectF x0 h0 w0 (SFopp h0) /\
  flip_vertical (flip_vertical r) =
    mkRectF x0 (qreal_of_Z 0) w0 (of_float (to_float h0)) /\
  (flip_vertical (flip_vertical r) = r <-> of_float (to_float h0) = h0).
Proof.
  cbn zeta.
  assert (E1 : flip_vertical (mkRectF x0 (qreal_of_Z 0) w0 (S754_finite s m e))
               = mkRectF x0 (S754_finite s m e) w0
                         (SFopp (S754_finite s m e))).
  { destruct (flip_vertical_at_origin x0 w0 (S754_finite s m e) eq_refl)
      as [E _]. exact E. }
  assert (E2 : flip_vertical (mkRectF x0 (S754_finite s m e) w0
                                (SFopp (S754_finite s m e)))
               = mkRectF x0 (qreal_of_Z 0) w0
                         (of_float (to_float (S754_finite s m e)))).
  { unfold flip_vertical, setTop, setBottom, top, bottom.
    cbn [xp yp w h SFopp]. rewrite qreal_add_opp.
    change (S754_zero false - S754_finite s m e)%qreal
      with (S754_finite (negb s) m e).
    rewrite qreal_add_opp, qreal_sub_zero. reflexivity. }
  split; [exact E1|]. rewrite E1. split; [exact E2|]. rewrite E2.
  split; [intros H; now injection H | intros ->; reflexivity].
Qed.

(** X16: running [updatePaintNode] again on the node it has just
    returned, with the item unchanged, changes neither item, node nor
    world: it only repeats the geometry write and the dirty mark. *)
Theorem updatePaintNode_again
    (this : QSurfaceTexture) (n : option SurfaceTextureNode) (wd : World) :
  let r1 := updatePaintNode this n wd in
  let r2 := updatePaintNode (fst (value r1)) (Some (snd (value r1)))
                            (world r1) in
  value r2 = value r1 /\
  world r2 = world r1 /\
  trace r2 = geometry_calls (boundingRect this).
Proof.
  cbn zeta. destruct n as [node|].
  - rewrite updatePaintNode_old_node, value_run, world_run.
    cbn [fst snd]. rewrite updatePaintNode_old_node.
    rewrite value_run, world_run, trace_run. repeat split.
  - rewrite updatePaintNode_no_node, value_run, world_run.
    cbn [fst snd]. rewrite updatePaintNode_old_node.
    rewrite value_run, world_run, trace_run. repeat split.
Qed.

(** ** What [preprocess] leaves alone *)

Lemma heap_store_length hp o s :
  length (heap_store hp o s) = length hp.
Proof. destruct o; [apply heap_store_at_length | reflexivity]. Qed.

Lemma updateTexImage_keeps o wd :
  gl_textures (world (updateTexImage o wd)) = gl_textures wd /\
  length (java_heap (world (updateTexImage o wd))) = length (java_heap wd).
Proof.
  rewrite updateTexImage_run, world_run.
  destruct (heap_load (java_heap wd) o); [|auto].
  cbn [gl_textures java_heap]. now rewrite heap_store_length.
Qed.

(** X17: [preprocess] writes the matrix and the scratch array and
    nothing else: flags, geometry, texture id, handles and method ids of
    the node, texture id and flags of the material, the GL texture names
    and the number of Java objects are as before. *)
Theorem preprocess_keeps_the_rest (node : SurfaceTextureNode) (wd : World) :
  let r := preprocess node wd in
  node_flags (value r) = node_flags node /\
  m_geometry (value r) = m_geometry node /\
  m_textureId (value r) = m_textureId node /\
  m_surfaceTexture (value r) = m_surfaceTexture node /\
  obj (value r) = obj node /\
  updateTexMethod (value r) = updateTexMethod node /\
  getTransformMatrixMethod (value r) = getTransformMatrixMethod node /\
  option_map (fun m => textureId (state m)) (material (value r)) =
    option_map (fun m => textureId (state m)) (material node) /\
  option_map material_flags (material (value r)) =
    option_map material_flags (material node) /\
  gl_textures (world r) = gl_textures wd /\
  length (java_heap (world r)) = length (java_heap wd).
Proof.
  cbn zeta. unfold preprocess.
  destruct (material node) as [mat|] eqn:Hmat.
  - rewrite !bind_run, !value_run, !world_run.
    cbn [ret fst snd with_transform node_flags m_geometry m_textureId
         m_surfaceTexture obj updateTexMethod getTransformMatrixMethod
         material option_map state textureId material_flags].
    repeat split.
    + destruct (updateTexMethod node), (getTransformMatrixMethod node);
        cbn [CallVoidMethod CallVoidMethodA];
        rewrite ?bind_run, ?world_run, ?getTransformMatrix_run, ?world_run;
        cbn [ret fst snd world];
        repeat (rewrite (proj1 (updateTexImage_keeps _ _))); reflexivity.
    + destruct (updateTexMethod node), (getTransformMatrixMethod node);
        cbn [CallVoidMethod CallVoidMethodA];
        rewrite ?bind_run, ?world_run, ?getTransformMatrix_run, ?world_run;
        cbn [ret fst snd world];
        repeat (rewrite (proj2 (updateTexImage_keeps _ _))); reflexivity.
  - unfold ret, value, world. cbn [fst snd]. rewrite ?Hmat. repeat split.
Qed.

(** ** From the producer to the draw call *)

Lemma run_material ptr id0 tk tks wd :
  Forall (fun F => length F = 16%nat) (run_frames (tk :: tks)) ->
  let r := traversals (tk :: tks) (construct ptr id0) wd in
  exists node mat,
    paintNode (value r) = Some node /\
    material node = Some mat /\
    uSTMatrix (state mat) =
      last (run_frames (tk :: tks)) QMatrix4x4_identity /\
    textureId (state mat) = fresh_name (gl_textures wd) /\
    In (fresh_name (gl_textures wd)) (gl_textures (world r)).
Proof.
  intros Hfs. cbn zeta. cbn [run_frames] in *.
  apply Forall_app in Hfs as [Hf1 Hf2].
  rewrite traversals_cons, value_run, world_run, last_app_default.
  pose proof (traversal_ok tk _ wd (construct_ok ptr id0 wd)) as Hok1.
  destruct (first_traversal_agrees tk ptr id0 wd)
    as (Hag1 & _ & _ & Hi1 & _).
  pose proof (first_traversal_synced tk ptr id0 wd Hf1) as Hsy1.
  destruct (traversals_agree tks _ _ Hok1 Hag1)
    as ((node & mat & s & Hpn & Hmat & _ & _ & _ & _ & Htid & _ & _ & _
         & Hin & _) & _ & _ & Hi2 & _).
  destruct (traversals_synced tks _ _ _ Hok1 Hag1 Hsy1 Hf2)
    as (_ & node' & mat' & _ & Hpn' & Hmat' & _ & Hm & _).
  cbn zeta in *.
  assert (node' = node) by congruence. subst node'.
  assert (mat' = mat) by congruence. subst mat'.
  exists node, mat. repeat split; auto; congruence.
Qed.

(** X18: with a linked program that has the matrix [uSTMatrix] and the
    sampler [sTexture], and frames of sixteen floats, the draw call that
    follows a run of traversals finds in [uSTMatrix] the transform of
    the most recent frame, and its sampler reads the item's own texture,
    which is a live GL name at that time. *)
Theorem draw_samples_newest_frame
    (ptr : jlong) (mTextureId0 : GLuint) (tk : Tick) (tks : list Tick)
    (wd : World) (this : SurfaceTextureShader) (rs : RenderState)
    (lm ls : Z) :
  program_wf (program rs) ->
  In (mkUniform "uSTMatrix" GLSL_mat4 lm) (active_uniforms (program rs)) ->
  In (mkUniform "sTexture" GLSL_samplerExternalOES ls)
     (active_uniforms (program rs)) ->
  Forall (fun F => length F = 16%nat) (run_frames (tk :: tks)) ->
  let r := traversals (tk :: tks) (construct ptr mTextureId0) wd in
  let resolved := resolveUniforms this rs in
  let rs' := draw (fst resolved) (value r) (snd resolved) in
  uniform_of rs' "uSTMatrix" =
    Some (UniformMatrix4 (last (run_frames (tk :: tks)) QMatrix4x4_identity))
  /\
  sampled_texture rs' "sTexture" = Some (mTextureId (item (value r))) /\
  In (mTextureId (item (value r))) (gl_textures (world r)).
Proof.
  intros Hwf Hm Hs Hfs. cbn zeta.
  destruct (run_material ptr mTextureId0 tk tks wd Hfs)
    as (node & mat & Hpn & Hmat & Hmatrix & Htid & Hin).
  destruct (run_end_state ptr mTextureId0 tk tks wd) as (Hid & _).
  cbn zeta in Hpn, Hin, Hid.
  unfold draw. rewrite Hpn, Hmat, Hid.
  destruct (resolve_update_core this (state mat) None rs lm ls Hwf Hm Hs)
    as (_ & Hu & _ & Ht).
  cbn zeta in Hu, Ht. rewrite Hu, Ht, Hmatrix, Htid. auto.
Qed.

Lemma draw_samples_newest_frame_witness :
  let r := traversals sample_ticks (construct 4096 0) empty_world in
  let resolved := resolveUniforms (mkShader 77) sample_render in
  let rs' := draw (fst resolved) (value r) (snd resolved) in
  uniform_of rs' "uSTMatrix" =
    Some (UniformMatrix4 (last (run_frames sample_ticks) QMatrix4x4_identity))
  /\
  sampled_texture rs' "sTexture" = Some (mTextureId (item (value r))) /\
  In (mTextureId (item (value r))) (gl_textures (world r)).
Proof.
  apply (draw_samples_newest_frame 4096 0
           (mkTick [sample_transform] (QRectF_of 0 0 640 480)
                   [QMatrix4x4_identity])
           [mkTick [QMatrix4x4_identity; sample_transform]
                   (QRectF_of 0 0 320 240) []]
           empty_world (mkShader 77) sample_render 1 3).
  - repeat split; cbn; repeat constructor; cbn; try lia;
      intuition discriminate.
  - cbn. auto.
  - cbn. auto.
  - cbn. repeat constructor.
Defined.

(** ** When the scene graph has lost the node *)

Lemma dtor_world this wd :
  mTextureId this <> 0 ->
  world (QSurfaceTexture_dtor this wd) =
  mkWorld (filter (fun n => negb (n =? mTextureId this)) (gl_textures wd))
          (java_heap wd).
Proof.
  intros Hid. unfold QSurfaceTexture_dtor.
  destruct (Z.eqb_spec (mTextureId this) 0) as [|_]; [contradiction|].
  reflexivity.
Qed.

(** X19: [updatePaintNode] called without a node on an item that already
    owns a live texture generates a second texture and forgets the
    first: the item now names the new one, and its destructor deletes
    only that, so the first texture stays among the GL names. *)
Theorem recreation_leaks_texture (this : QSurfaceTexture) (wd : World) :
  In (mTextureId this) (gl_textures wd) ->
  let r := updatePaintNode this None wd in
  let this' := fst (value r) in
  let after := world (QSurfaceTexture_dtor this' (world r)) in
  mTextureId this' <> mTextureId this /\
  filter is_texture_create (trace r) = [GlGenTextures (mTextureId this')] /\
  filter is_texture_destroy (trace (QSurfaceTexture_dtor this' (world r)))
    = [GlDeleteTextures (mTextureId this')] /\
  In (mTextureId this) (gl_textures after) /\
  ~ In (mTextureId this') (gl_textures after).
Proof.
  intros Hin. cbn zeta.
  rewrite updatePaintNode_no_node, value_run, world_run, trace_run.
  cbn [fst mTextureId].
  pose proof (fresh_name_unused (gl_textures wd)) as Hfresh.
  pose proof (fresh_name_nonzero (gl_textures wd)) as Hnz.
  split; [intros Heq; apply Hfresh; now rewrite Heq|].
  split; [reflexivity|].
  split.
  { unfold QSurfaceTexture_dtor. cbn [mTextureId].
    destruct (Z.eqb_spec (fresh_name (gl_textures wd)) 0) as [|_];
      [contradiction | reflexivity]. }
  rewrite dtor_world by exact Hnz.
  cbn [gl_textures mTextureId filter]. rewrite Z.eqb_refl. cbn [negb].
  rewrite filter_other_names by exact Hfresh. auto.
Qed.

Lemma recreation_leaks_texture_witness :
  let this := fst (value (updatePaintNode (QSurfaceTexture_ctor 4096 0) None
                                          empty_world)) in
  let wd := world (updatePaintNode (QSurfaceTexture_ctor 4096 0) None
                                   empty_world) in
  let r := updatePaintNode this None wd in
  let this' := fst (value r) in
  let after := world (QSurfaceTexture_dtor this' (world r)) in
  mTextureId this' <> mTextureId this /\
  filter is_texture_create (trace r) = [GlGenTextures (mTextureId this')] /\
  filter is_texture_destroy (trace (QSurfaceTexture_dtor this' (world r)))
    = [GlDeleteTextures (mTextureId this')] /\
  In (mTextureId this) (gl_textures after) /\
  ~ In (mTextureId this') (gl_textures after).
Proof.
  apply (recreation_leaks_texture
           (fst (value (updatePaintNode (QSurfaceTexture_ctor 4096 0) None
                                        empty_world)))
           (world (updatePaintNode (QSurfaceTexture_ctor 4096 0) None
                                   empty_world))).
  vm_compute. auto.
Defined.
